(** * Receipt parser comparison: pattern extractor, model extractor, API pipeline

    A shallow embedding of [parsers/regex_parser.py], [parsers/llm_parser.py]
    and the two endpoints of [api.py].

    Modelling conventions.
    - A Python [str] is a list of 8-bit code points ([ascii]); the character
      classes below are Python's classes restricted to that range.
    - The regular expressions of the source are kept as data ([Re.regex]) and
      run by a backtracking matcher with the priorities of Python's [re]
      module: greedy repetition tries the longest run first, lazy repetition
      the shortest, [re.search] takes the leftmost start position.
    - A Python [float] is a binary64 number: [float(...)] rounds the decimal
      literal it is given to the nearest binary64 value, ties to even, and
      gives [inf] past the largest one. A finite number is named by the
      rational it is, so that [==] between numbers is equality of rationals.
    - Exceptions are values of [result]; the network call, the environment
      and [json.loads] are parameters of the model extractor.
    - An endpoint is what its function returns or raises; how the framework
      renders that as an HTTP response is outside the model. *)

From Stdlib Require SpecFloat.
From Stdlib Require Import Ascii String Bool Arith Lia ZArith QArith Qpower List.
Import ListNotations.

Local Close Scope Q_scope.
Local Open Scope nat_scope.
Local Open Scope list_scope.

(** ** Text and character classes *)

Definition text := list ascii.

Definition nl : ascii := "010"%char.

(** [str.isspace] / the class [\s] on code points below 256. *)
Definition isspace (c : ascii) : bool :=
  let n := nat_of_ascii c in
  ((9 <=? n) && (n <=? 13)) || ((28 <=? n) && (n <=? 32))
  || (n =? 133) || (n =? 160).

(** The class [\d] on code points below 256. *)
Definition isdigit (c : ascii) : bool :=
  let n := nat_of_ascii c in (48 <=? n) && (n <=? 57).

(** [.] without [re.DOTALL]: anything but a line feed. *)
Definition dot (c : ascii) : bool := negb (Ascii.eqb c nl).

(** [.] under [re.DOTALL]. *)
Definition anychar (c : ascii) : bool := true.

Definition txt (s : string) : text := list_ascii_of_string s.

Fixpoint dropWhile (p : ascii -> bool) (s : text) : text :=
  match s with
  | x :: s' => if p x then dropWhile p s' else s
  | [] => []
  end.

Fixpoint takeWhile (p : ascii -> bool) (s : text) : text :=
  match s with
  | x :: s' => if p x then x :: takeWhile p s' else []
  | [] => []
  end.

Definition lstrip (s : text) : text := dropWhile isspace s.
Definition rstrip (s : text) : text := rev (dropWhile isspace (rev s)).

(** [str.strip()] *)
Definition strip (s : text) : text := lstrip (rstrip s).

(** [str.split(sep)] for a one-character separator. *)
Fixpoint split (sep : ascii) (s : text) : list text :=
  match s with
  | [] => [[]]
  | c :: s' =>
      if Ascii.eqb c sep then [] :: split sep s'
      else match split sep s' with
           | l :: ls => (c :: l) :: ls
           | [] => [[c]]
           end
  end.

(** [s.startswith(w)], returning the remainder on success. *)
Fixpoint strip_prefix (w s : text) : option text :=
  match w, s with
  | [], _ => Some s
  | c :: w', x :: s' => if Ascii.eqb x c then strip_prefix w' s' else None
  | _ :: _, [] => None
  end.

Definition startswith (w s : text) : bool :=
  match strip_prefix w s with Some _ => true | None => false end.

(** [s.find(w)]: index of the leftmost occurrence. *)
Fixpoint find (w s : text) : option nat :=
  if startswith w s then Some 0
  else match s with
       | [] => None
       | _ :: s' => option_map S (find w s')
       end.

(** ** Exceptions as values *)

Inductive exn_kind := ValueError | TypeError | JSONDecodeError | APIError.

Record exn := Exn { exn_type : exn_kind; exn_msg : string }.

Inductive result (A : Type) :=
| Ok (a : A)
| Raise (e : exn).
Arguments Ok {A} a.
Arguments Raise {A} e.

Definition bind {A B} (c : result A) (f : A -> result B) : result B :=
  match c with
  | Ok a => f a
  | Raise e => Raise e
  end.

Notation "x <- c ;; k" := (bind c (fun x => k))
  (at level 61, c at next level, right associativity).

(** ** Floating-point numbers *)

(** A Python [float] other than [nan]: a binary64 number, named by the
    rational it is, or an infinity. ([float] gives no [nan] on the literals
    the patterns capture.) *)
Inductive float64 :=
| Finite (q : Q)
| Infinity (negative : bool).

(** [m * 2^e], in lowest terms. *)
Definition scaled (m : positive) (e : Z) : Q :=
  Qred (inject_Z (Zpos m) * Qpower 2 e)%Q.

(** The binary64 value nearest to a rational, ties to even: the IEEE 754
    quotient of the numerator by the denominator, computed exactly and
    rounded once (53 bits of precision, exponents below 1024). Numbers from
    [2^1024 - 2^970] on round to [inf], numbers up to [2^-1075] to zero.
    (The quotient of two integers other than zero is never [nan].) *)
Definition binary64 (q : Q) : float64 :=
  match Z.abs (Qnum q) with
  | Zpos n =>
      match SpecFloat.SFdiv 53 1024
              (SpecFloat.S754_finite (Qnum q <? 0)%Z n 0)
              (SpecFloat.S754_finite false (Qden q) 0) with
      | SpecFloat.S754_finite s m e =>
          Finite (if s then - scaled m e else scaled m e)%Q
      | SpecFloat.S754_infinity s => Infinity s
      | _ => Finite 0%Q
      end
  | _ => Finite 0%Q
  end.

(** ** The regular-expression engine *)

Module Re.

(** The fragment of [re] syntax the source uses. [Mark] records the current
    position: a capture group is a pair of marks. *)
Inductive atom :=
| Lit (c : ascii)
| Cls (p : ascii -> bool)
| Star (p : ascii -> bool)
| LazyStar (p : ascii -> bool)
| Opt (w : text)
| Mark.

Definition regex := list atom.

(** The remaining input at each mark and at the end of the match. *)
Definition marks := list text.

Fixpoint greedy_star {A} (p : ascii -> bool) (k : text -> option A)
    (s : text) : option A :=
  match s with
  | x :: s' =>
      if p x then
        match greedy_star p k s' with
        | Some r => Some r
        | None => k s
        end
      else k s
  | [] => k s
  end.

Fixpoint lazy_star {A} (p : ascii -> bool) (k : text -> option A)
    (s : text) : option A :=
  match k s with
  | Some r => Some r
  | None =>
      match s with
      | x :: s' => if p x then lazy_star p k s' else None
      | [] => None
      end
  end.

(** [re.match]: the pattern anchored at the head of the input. *)
Fixpoint match_here (r : regex) : text -> option marks :=
  match r with
  | [] => fun s => Some [s]
  | Lit c :: r' => fun s =>
      match s with
      | x :: s' => if Ascii.eqb x c then match_here r' s' else None
      | [] => None
      end
  | Cls p :: r' => fun s =>
      match s with
      | x :: s' => if p x then match_here r' s' else None
      | [] => None
      end
  | Star p :: r' => greedy_star p (match_here r')
  | LazyStar p :: r' => lazy_star p (match_here r')
  | Opt w :: r' => fun s =>
      match strip_prefix w s with
      | Some s' =>
          match match_here r' s' with
          | Some m => Some m
          | None => match_here r' s
          end
      | None => match_here r' s
      end
  | Mark :: r' => fun s => option_map (cons s) (match_here r' s)
  end.

(** [re.search]: the leftmost start position at which the pattern matches. *)
Fixpoint search (r : regex) (s : text) : option marks :=
  match match_here r s with
  | Some m => Some m
  | None =>
      match s with
      | [] => None
      | _ :: s' => search r s'
      end
  end.

(** The text between two recorded positions. *)
Definition between (a b : text) : text := firstn (length a - length b) a.

(** [match.group(n)] for [n >= 1]. *)
Definition group (n : nat) (m : marks) : text :=
  match nth_error m (2 * n - 2), nth_error m (2 * n - 1) with
  | Some a, Some b => between a b
  | _, _ => []
  end.

Definition lits (s : string) : regex := map Lit (txt s).

(** [(\d+\.\d+)] *)
Definition number : regex :=
  [Mark; Cls isdigit; Star isdigit; Lit "."; Cls isdigit; Star isdigit; Mark].

(** [(.+)] *)
Definition line : regex := [Mark; Cls dot; Star dot; Mark].

(** [\s*(.+)] *)
Definition rest_of_line : regex := Star isspace :: line.

(** [\s*\$(\d+\.\d+)] *)
Definition money : regex := [Star isspace; Lit "$"] ++ number.

End Re.

Import Re.

(** ** parsers/regex_parser.py *)

Module regex_parser.

Record Item := { description : text; amount : float64 }.

Record Receipt := {
  merchant : option text;
  date : option text;
  invoice_number : option text;
  items : list Item;
  subtotal : option float64;
  tax : option float64;
  total : option float64;
  parser_used : string
}.

(** [r"Date:\s*(.+)"] *)
Definition date_re : regex := lits "Date:" ++ rest_of_line.
(** [r"Invoice #:\s*(.+)"] *)
Definition invoice_re : regex := lits "Invoice #:" ++ rest_of_line.
(** [r"TOTAL:\s*\$(\d+\.\d+)"] *)
Definition total_re : regex := lits "TOTAL:" ++ money.
(** [r"Subtotal:\s*\$(\d+\.\d+)"] *)
Definition subtotal_re : regex := lits "Subtotal:" ++ money.
(** [r"Tax.*?:\s*\$(\d+\.\d+)"] *)
Definition tax_re : regex := lits "Tax" ++ [LazyStar dot; Lit ":"] ++ money.
(** [r'-\s*(.+?)\s*\.\.\.\s*\$(\d+\.\d+)'] *)
Definition item_re : regex :=
  [Lit "-"; Star isspace; Mark; Cls dot; LazyStar dot; Mark; Star isspace]
  ++ lits "..." ++ money.

Definition digit_value (c : ascii) : N := N.of_nat (nat_of_ascii c - 48).

Definition digits_value (ds : text) : N :=
  fold_left (fun acc c => (10 * acc + digit_value c)%N) ds 0%N.

(** The number a literal [ip.fp] denotes. *)
Definition literal_value (ip fp : text) : Q :=
  Qmake (Z.of_N (digits_value (ip ++ fp)))
        (Pos.pow 10 (Pos.of_nat (length fp))).

(** [float(s)], for the literals [digits.digits]: the binary64 value nearest
    to the number the literal denotes, [inf] when it is too large. On any
    other argument the model raises [ValueError] (Python accepts more
    spellings, none of which the patterns above can capture). *)
Definition py_float (s : text) : result float64 :=
  let ip := takeWhile isdigit s in
  match ip, dropWhile isdigit s with
  | _ :: _, "."%char :: s' =>
      let fp := takeWhile isdigit s' in
      match fp, dropWhile isdigit s' with
      | _ :: _, [] => Ok (binary64 (literal_value ip fp))
      | _, _ => Raise (Exn ValueError "could not convert string to float")
      end
  | _, _ => Raise (Exn ValueError "could not convert string to float")
  end.

(** The first [for] loop: the first line that is not blank, stripped. *)
Fixpoint first_nonblank (lines : list text) : option text :=
  match lines with
  | [] => None
  | line :: rest =>
      match strip line with
      | [] => first_nonblank rest
      | l => Some l
      end
  end.

(** [re.search(...)] followed by [match.group(1).strip()]. *)
Definition text_field (re : regex) (receipt_text : text) : option text :=
  match search re receipt_text with
  | Some m => Some (strip (group 1 m))
  | None => None
  end.

(** [re.search(...)] followed by [float(match.group(1))]. *)
Definition money_field (re : regex) (receipt_text : text)
  : result (option float64) :=
  match search re receipt_text with
  | Some m => v <- py_float (group 1 m) ;; Ok (Some v)
  | None => Ok None
  end.

(** The second [for] loop; [acc] is [result["items"]] so far. *)
Fixpoint parse_items (lines : list text) (acc : list Item)
  : result (list Item) :=
  match lines with
  | [] => Ok acc
  | line :: rest =>
      if startswith (txt "-") (strip line) then
        match search item_re line with
        | Some m =>
            let description := strip (group 1 m) in
            amount <- py_float (group 2 m) ;;
            parse_items rest (acc ++ [Build_Item description amount])
        | None => parse_items rest acc
        end
      else parse_items rest acc
  end.

Definition parse_receipt (receipt_text : text) : result Receipt :=
  let lines := split nl (strip receipt_text) in
  let merchant := first_nonblank lines in
  let date := text_field date_re receipt_text in
  let invoice_number := text_field invoice_re receipt_text in
  total <- money_field total_re receipt_text ;;
  subtotal <- money_field subtotal_re receipt_text ;;
  tax <- money_field tax_re receipt_text ;;
  items <- parse_items lines [] ;;
  Ok {| merchant := merchant; date := date;
        invoice_number := invoice_number; items := items;
        subtotal := subtotal; tax := tax; total := total;
        parser_used := "regex" |}.

End regex_parser.

(** [lines] joined by line feeds. *)
Definition unlines (lines : list string) : text :=
  txt (String.concat (String nl EmptyString) lines).

(** ** JSON values and Python dictionaries *)

(** The values [json.loads] builds. [JNum q] is a finite number, an [int] or
    a [float], named by the rational it is; [JInf] and [JNaN] are the floats
    it reads from [Infinity], [-Infinity] and [NaN]. *)

#[warnings="-register-all"]
Inductive json :=
| JNull
| JBool (b : bool)
| JNum (q : Q)
| JInf (negative : bool)
| JNaN
| JStr (s : text)
| JArr (l : list json)
| JObj (m : list (string * json)).

(** A [dict] with string keys, in insertion order, keys pairwise distinct. *)
Definition dict := list (string * json).

Fixpoint lookup (k : string) (d : dict) : option json :=
  match d with
  | [] => None
  | (k', v) :: d' => if String.eqb k k' then Some v else lookup k d'
  end.

(** [d.get(k, default)] *)
Definition get_default (k : string) (default : json) (d : dict) : json :=
  match lookup k d with
  | Some v => v
  | None => default
  end.

(** [d.get(k)] *)
Definition get (k : string) (d : dict) : json := get_default k JNull d.

(** [d[k] = v] *)
Fixpoint set_item (k : string) (v : json) (d : dict) : dict :=
  match d with
  | [] => [(k, v)]
  | (k', v') :: d' =>
      if String.eqb k k' then (k, v) :: d' else (k', v') :: set_item k v d'
  end.

Fixpoint text_eqb (a b : text) : bool :=
  match a, b with
  | [], [] => true
  | x :: a', y :: b' => Ascii.eqb x y && text_eqb a' b'
  | _, _ => false
  end.

Definition bool_num (b : bool) : Q := if b then 1%Q else 0%Q.

(** Python's [==] on the values [json.loads] produces: [bool] is a subtype
    of [int], finite numbers are equal when they are the same number, [nan]
    equals nothing, dictionaries compare without regard to order. *)
Fixpoint py_eq (a b : json) {struct a} : bool :=
  match a, b with
  | JNull, JNull => true
  | JBool x, JBool y => Bool.eqb x y
  | JBool x, JNum q => Qeq_bool (bool_num x) q
  | JNum q, JBool y => Qeq_bool q (bool_num y)
  | JNum p, JNum q => Qeq_bool p q
  | JInf x, JInf y => Bool.eqb x y
  | JStr s, JStr t => text_eqb s t
  | JArr l, JArr l' =>
      (fix list_eq (l l' : list json) {struct l} : bool :=
         match l, l' with
         | [], [] => true
         | x :: r, y :: r' => py_eq x y && list_eq r r'
         | _, _ => false
         end) l l'
  | JObj m, JObj m' =>
      (length m =? length m')
      && forallb (fun kv : string * json =>
                    let (k, v) := kv in
                    match lookup k m' with
                    | Some v' => py_eq v v'
                    | None => false
                    end) m
  | _, _ => false
  end.

(** [len(v)]; numbers, booleans and [None] have no length. *)
Definition py_len (v : json) : result nat :=
  match v with
  | JStr s => Ok (length s)
  | JArr l => Ok (length l)
  | JObj m => Ok (length m)
  | _ => Raise (Exn TypeError "object has no len()")
  end.

Record Usage := {
  input_tokens : Z;
  output_tokens : Z;
  total_tokens : Z
}.

(** ** parsers/llm_parser.py *)

Module llm_parser.

(** What [client.messages.create] hands back, as far as the parser reads it:
    [message.content[0].text] and [message.usage]. *)
Record Message := {
  content_text : text;
  usage_input_tokens : Z;
  usage_output_tokens : Z
}.

(** [r'```(?:json)?\s*\n(.*?)\n```'] under [re.DOTALL] *)
Definition fence_re : regex :=
  lits "```" ++ [Opt (txt "json"); Star isspace; Lit nl;
                 Mark; LazyStar anychar; Mark; Lit nl] ++ lits "```".

(** Lines 52-56: remove the markdown code block, if present. *)
Definition unfence (response_text : text) : text :=
  if startswith (txt "```") response_text then
    match search fence_re response_text with
    | Some m => group 1 m
    | None => response_text
    end
  else response_text.

Definition prompt (receipt_text : text) : text :=
  unlines ["Extract structured data from this receipt and return ONLY valid JSON.";
           "";
           "Required fields:";
           "- merchant: string";
           "- date: string (YYYY-MM-DD format if possible)";
           "- invoice_number: string or null";
           "- items: array of objects with description and amount";
           "- subtotal: number or null";
           "- tax: number or null";
           "- total: number";
           "";
           "Receipt text:";
           ""]%string
  ++ receipt_text
  ++ unlines ["";
              "";
              "Important: Return ONLY the JSON object, no markdown, no explanations."
             ]%string.

(** [result["parser_used"] = "llm"]: only a dictionary accepts it. *)
Definition tag_llm (v : json) : result dict :=
  match v with
  | JObj m => Ok (set_item "parser_used" (JStr (txt "llm")) m)
  | _ => Raise (Exn TypeError "object does not support item assignment")
  end.

Section Collaborators.

(** [os.getenv("ANTHROPIC_API_KEY")] *)
Variable api_key : option string.
(** [client.messages.create(...)] on the given prompt. *)
Variable messages_create : text -> result Message.
(** [json.loads] *)
Variable json_loads : text -> result json.

(** The text handed to [json.loads] for a given reply. *)
Definition json_input (reply : text) : text := unfence (strip reply).

Definition parse_receipt (receipt_text : text) : result (dict * Usage) :=
  match api_key with
  | None | Some EmptyString =>
      Raise (Exn ValueError "ANTHROPIC_API_KEY not found!")
  | Some _ =>
      message <- messages_create (prompt receipt_text) ;;
      let response_text := json_input (content_text message) in
      parsed <- json_loads response_text ;;
      result <- tag_llm parsed ;;
      let usage :=
        {| input_tokens := usage_input_tokens message;
           output_tokens := usage_output_tokens message;
           total_tokens :=
             (usage_input_tokens message + usage_output_tokens message)%Z |}
      in
      Ok (result, usage)
  end.

End Collaborators.

End llm_parser.

(** ** api.py *)

Module api.

Inductive parser_choice := llm | regex | auto.

Record ReceiptRequest := {
  receipt_text : text;
  parser : parser_choice
}.

Record ReceiptResponse := {
  success : bool;
  parser_used : string;
  data : option dict;
  error : option string;
  usage : option Usage
}.

(** What an endpoint does: answer, raise [HTTPException], or let another
    exception escape. *)
Inductive http (A : Type) :=
| Respond (a : A)
| HTTPException (status_code : nat) (detail : string)
| Unhandled (e : exn).
Arguments Respond {A} a.
Arguments HTTPException {A} status_code detail.
Arguments Unhandled {A} e.

Definition opt_json {A} (f : A -> json) (o : option A) : json :=
  match o with
  | Some a => f a
  | None => JNull
  end.

(** A [float] of the pattern extractor among the values of a dictionary. *)
Definition float_json (x : float64) : json :=
  match x with
  | Finite q => JNum q
  | Infinity negative => JInf negative
  end.

Definition item_dict (i : regex_parser.Item) : json :=
  JObj [("description"%string, JStr (regex_parser.description i));
        ("amount"%string, float_json (regex_parser.amount i))].

(** The dictionary [regex_parser.parse_receipt] builds, key by key. *)
Definition as_dict (r : regex_parser.Receipt) : dict :=
  [("merchant", opt_json JStr (regex_parser.merchant r));
   ("date", opt_json JStr (regex_parser.date r));
   ("invoice_number", opt_json JStr (regex_parser.invoice_number r));
   ("items", JArr (map item_dict (regex_parser.items r)));
   ("subtotal", opt_json float_json (regex_parser.subtotal r));
   ("tax", opt_json float_json (regex_parser.tax r));
   ("total", opt_json float_json (regex_parser.total r));
   ("parser_used", JStr (txt (regex_parser.parser_used r)))]%string.

(** [not request.receipt_text.strip()] *)
Definition is_blank (t : text) : bool :=
  match strip t with
  | [] => true
  | _ => false
  end.

Record Comparison := {
  merchant_match : bool;
  total_match : bool;
  items_count_llm : nat;
  items_count_regex : nat
}.

(** Lines 157-167: the comparison of two parsed records. *)
Definition compare (llm_data regex_data : dict) : result Comparison :=
  let merchant_match := py_eq (get "merchant" llm_data)
                              (get "merchant" regex_data) in
  let total_match := py_eq (get "total" llm_data) (get "total" regex_data) in
  n_llm <- py_len (get_default "items" (JArr []) llm_data) ;;
  n_regex <- py_len (get_default "items" (JArr []) regex_data) ;;
  Ok {| merchant_match := merchant_match; total_match := total_match;
        items_count_llm := n_llm; items_count_regex := n_regex |}.

(** One entry of the [/compare] answer. *)
Inductive entry :=
| Success (data : dict) (usage : option Usage)
| Failure (error : string).

Definition succeeded (e : entry) : bool :=
  match e with
  | Success _ _ => true
  | Failure _ => false
  end.

Record CompareResults := {
  results_llm : entry;
  results_regex : entry;
  results_comparison : option Comparison
}.

Section Endpoints.

(** [llm_parser.parse_receipt] and [regex_parser.parse_receipt], looked up
    in their modules at each call. *)
Variable llm_parse_receipt : text -> result (dict * Usage).
Variable regex_parse_receipt : text -> result regex_parser.Receipt.

Local Open Scope string_scope.

(** [POST /parse]; the [print] on the fallback path is not modelled. *)
Definition parse_receipt (request : ReceiptRequest)
  : http ReceiptResponse :=
  if is_blank (receipt_text request) then
    HTTPException 400 "receipt_text cannot be empty"
  else
    match parser request with
    | auto =>
        match llm_parse_receipt (receipt_text request) with
        | Ok (result, usage) =>
            Respond {| success := true; parser_used := "llm";
                       data := Some result; error := None;
                       usage := Some usage |}
        | Raise llm_error =>
            match regex_parse_receipt (receipt_text request) with
            | Ok result =>
                Respond {| success := true;
                           parser_used := "regex_fallback";
                           data := Some (as_dict result); error := None;
                           usage := None |}
            | Raise regex_error =>
                HTTPException 500
                  ("Both parsers failed. LLM: " ++ exn_msg llm_error
                   ++ ", Regex: " ++ exn_msg regex_error)
            end
        end
    | llm =>
        match llm_parse_receipt (receipt_text request) with
        | Ok (result, usage) =>
            Respond {| success := true; parser_used := "llm";
                       data := Some result; error := None;
                       usage := Some usage |}
        | Raise e =>
            HTTPException 500 ("LLM parsing failed: " ++ exn_msg e)
        end
    | regex =>
        match regex_parse_receipt (receipt_text request) with
        | Ok result =>
            Respond {| success := true; parser_used := "regex";
                       data := Some (as_dict result); error := None;
                       usage := None |}
        | Raise e =>
            HTTPException 500 ("Regex parsing failed: " ++ exn_msg e)
        end
    end.

(** [POST /compare] *)
Definition compare_parsers (request : ReceiptRequest)
  : http CompareResults :=
  if is_blank (receipt_text request) then
    HTTPException 400 "receipt_text cannot be empty"
  else
    let r_llm :=
      match llm_parse_receipt (receipt_text request) with
      | Ok (llm_result, usage) => Success llm_result (Some usage)
      | Raise e => Failure (exn_msg e)
      end in
    let r_regex :=
      match regex_parse_receipt (receipt_text request) with
      | Ok regex_result => Success (as_dict regex_result) None
      | Raise e => Failure (exn_msg e)
      end in
    match r_llm, r_regex with
    | Success llm_data _, Success regex_data _ =>
        match compare llm_data regex_data with
        | Ok c =>
            Respond {| results_llm := r_llm; results_regex := r_regex;
                       results_comparison := Some c |}
        | Raise e => Unhandled e
        end
    | _, _ =>
        Respond {| results_llm := r_llm; results_regex := r_regex;
                   results_comparison := None |}
    end.

End Endpoints.

End api.

Definition scenario_a : text :=
  unlines ["ACME Office Supplies"; "Date: 2024-01-15";
           "Invoice #: INV-2024-001"; "- Paper ... $45.00";
           "Subtotal: $45.00"; "Tax: $3.60"; "TOTAL: $48.60"]%string.


(** ** Vocabulary of the specification *)

(** A float that is not negative. *)
Definition nonneg (x : float64) : Prop :=
  match x with
  | Finite q => (0 <= q)%Q
  | Infinity negative => negative = false
  end.

(** Two-decimal precision: a whole number of hundredths. *)
Definition two_decimals (x : float64) : Prop :=
  match x with
  | Finite q => exists n : Z, (q == n # 100)%Q
  | Infinity _ => False
  end.

(** [x] is the float of a literal [digits.digits] that stands in [s] after a
    currency marker. *)
Definition priced (s : text) (x : float64) : Prop :=
  exists a ip fp b,
    s = a ++ "$"%char :: ip ++ "."%char :: fp ++ b /\
    ip <> [] /\ fp <> [] /\
    forallb isdigit ip = true /\ forallb isdigit fp = true /\
    x = binary64 (regex_parser.literal_value ip fp).

Definition is_mark (a : atom) : bool :=
  match a with
  | Mark => true
  | _ => false
  end.

Definition count_marks (r : regex) : nat := length (filter is_mark r).

(** [\n```], the closing fence. *)
Definition closing_fence : text := nl :: txt "```".

(** [\n(.*?)\n```], from the line break that ends the opening line. *)
Definition fence_line : regex :=
  [Lit nl; Mark; LazyStar anychar; Mark; Lit nl] ++ lits "```".

(** [\s*\n(.*?)\n```], the fence pattern after the marker and the tag. *)
Definition fence_tail : regex := Star isspace :: fence_line.

(** What follows the fence marker, without the tag [json] if it is there. *)
Definition after_tag (u : text) : text :=
  match strip_prefix (txt "json") u with
  | Some v => v
  | None => u
  end.

(** The usage record built from a reply. *)
Definition usage_of (message : llm_parser.Message) : Usage :=
  {| input_tokens := llm_parser.usage_input_tokens message;
     output_tokens := llm_parser.usage_output_tokens message;
     total_tokens := (llm_parser.usage_input_tokens message
                      + llm_parser.usage_output_tokens message)%Z |}.

(** How many characters of a text are not whitespace. *)
Definition nonspace_count (s : text) : nat :=
  length (filter (fun c => negb (isspace c)) s).

(** [:\s*\$(\d+\.\d+)], what follows the lazy run in the tax pattern. *)
Definition colon_money : regex := Lit ":" :: money.

(** The input ends with a line feed. *)
Definition ends_nl (z : text) : Prop := exists s, z = s ++ [nl].

(** The marks of a match, seen from an input extended by [e]. *)
Definition extend (e : text) (m : option marks) : option marks :=
  option_map (map (fun u => u ++ e)) m.

(** A continuation whose outcome on a line-feed-terminated input does not
    depend on what follows that input. *)
Definition stable (k : text -> option marks) : Prop :=
  forall z e, ends_nl z -> k (z ++ e) = extend e (k z).

(** A text field as the extractor stores it: stripped, on one line. *)
Definition trimmed_line (v : text) : Prop := strip v = v /\ ~ In nl v.

(** [line.strip().startswith('-')] *)
Definition is_bullet (line : text) : bool := startswith (txt "-") (strip line).

(** [\s*\.\.\.\s*\$(\d+\.\d+)], the item pattern after the description. *)
Definition item_tail : regex := Mark :: Star isspace :: lits "..." ++ money.

(** The values [len] accepts. *)
Definition has_len (v : json) : bool :=
  match v with
  | JStr _ | JArr _ | JObj _ => true
  | _ => false
  end.

(** ** Facts about text *)

Lemma dot_nl : dot nl = false.
Proof. reflexivity. Qed.

Lemma dot_false x : dot x = false -> x = nl.
Proof.
  unfold dot. destruct (Ascii.eqb_spec x nl); [auto | discriminate].
Qed.

Lemma nonspace_dot x : isspace x = false -> dot x = true.
Proof.
  intros H. destruct (dot x) eqn:E; [reflexivity|].
  apply dot_false in E. subst. discriminate.
Qed.

Lemma isdigit_nonspace x : isdigit x = true -> isspace x = false.
Proof.
  unfold isdigit, isspace. cbv zeta.
  generalize (nat_of_ascii x). intros n H.
  apply andb_true_iff in H. destruct H as [H1 H2].
  apply Nat.leb_le in H1. apply Nat.leb_le in H2.
  repeat (apply orb_false_iff; split);
    try (apply andb_false_iff);
    try (apply Nat.eqb_neq; lia).
  - right. apply Nat.leb_gt. lia.
  - right. apply Nat.leb_gt. lia.
Qed.

Lemma dropWhile_app_all p a b :
  forallb p a = true -> dropWhile p (a ++ b) = dropWhile p b.
Proof.
  induction a as [|x a IH]; simpl; [reflexivity|].
  intros H. apply andb_true_iff in H. destruct H as [Hx Ha].
  rewrite Hx. auto.
Qed.

Lemma takeWhile_app_all p a b :
  forallb p a = true -> takeWhile p (a ++ b) = a ++ takeWhile p b.
Proof.
  induction a as [|x a IH]; simpl; [reflexivity|].
  intros H. apply andb_true_iff in H. destruct H as [Hx Ha].
  rewrite Hx. f_equal. auto.
Qed.

Lemma dropWhile_app_stop p a b :
  dropWhile p a <> [] -> dropWhile p (a ++ b) = dropWhile p a ++ b.
Proof.
  induction a as [|x a IH]; simpl; [congruence|].
  destruct (p x); auto.
Qed.

Lemma take_drop_while p s : takeWhile p s ++ dropWhile p s = s.
Proof.
  induction s as [|x s IH]; simpl; [reflexivity|].
  destruct (p x); simpl; [f_equal; exact IH | reflexivity].
Qed.

Lemma takeWhile_all p s : forallb p (takeWhile p s) = true.
Proof.
  induction s as [|x s IH]; simpl; [reflexivity|].
  destruct (p x) eqn:E; simpl; [rewrite E; exact IH | reflexivity].
Qed.

Lemma dropWhile_all p s : forallb p s = true -> dropWhile p s = [].
Proof.
  induction s as [|x s IH]; simpl; [reflexivity|].
  intros H. apply andb_true_iff in H. destruct H as [Hx Hs].
  rewrite Hx. auto.
Qed.

Lemma takeWhile_id p s : forallb p s = true -> takeWhile p s = s.
Proof.
  induction s as [|x s IH]; simpl; [reflexivity|].
  intros H. apply andb_true_iff in H. destruct H as [Hx Hs].
  rewrite Hx. f_equal. auto.
Qed.

Lemma dropWhile_stuck p s :
  match s with [] => True | x :: _ => p x = false end -> dropWhile p s = s.
Proof. destruct s as [|x s]; simpl; [reflexivity|]. intros ->. reflexivity. Qed.

Lemma between_app (a b : text) : between (a ++ b) b = a.
Proof.
  unfold between. rewrite length_app.
  replace (length a + length b - length b) with (length a + 0) by lia.
  rewrite firstn_app_2. simpl. apply app_nil_r.
Qed.

Lemma strip_prefix_app w s : strip_prefix w (w ++ s) = Some s.
Proof.
  induction w as [|c w IH]; simpl; [reflexivity|].
  rewrite Ascii.eqb_refl. exact IH.
Qed.

Lemma strip_prefix_inv w s s' : strip_prefix w s = Some s' -> s = w ++ s'.
Proof.
  revert s. induction w as [|c w IH]; simpl; intros s H.
  - congruence.
  - destruct s as [|x s]; [discriminate|].
    destruct (Ascii.eqb_spec x c); [|discriminate].
    subst. f_equal. auto.
Qed.

(** ** Facts about the matcher *)

Module ReFacts.

Section Stars.
Context {A : Type}.
Variable p : ascii -> bool.
Variable k : text -> option A.

Lemma greedy_inv s r :
  greedy_star p k s = Some r ->
  exists a b, s = a ++ b /\ forallb p a = true /\ k b = Some r.
Proof.
  induction s as [|x s IH]; simpl; intros H.
  - exists [], []. auto.
  - destruct (p x) eqn:Hx.
    + destruct (greedy_star p k s) as [r'|] eqn:Hg.
      * destruct (IH H) as (a & b & -> & Ha & Hb).
        exists (x :: a), b. simpl. rewrite Hx. auto.
      * exists [], (x :: s). auto.
    + exists [], (x :: s). auto.
Qed.

Lemma lazy_inv s r :
  lazy_star p k s = Some r ->
  exists a b, s = a ++ b /\ forallb p a = true /\ k b = Some r.
Proof.
  induction s as [|x s IH]; simpl; intros H.
  - destruct (k []) eqn:Hk; [|discriminate].
    exists [], []. rewrite Hk. auto.
  - destruct (k (x :: s)) eqn:Hk.
    + exists [], (x :: s). rewrite Hk. auto.
    + destruct (p x) eqn:Hx; [|discriminate].
      destruct (IH H) as (a & b & -> & Ha & Hb).
      exists (x :: a), b. simpl. rewrite Hx. auto.
Qed.

(** The longest run is tried first: if the rest of the pattern matches
    after it, that is the match. *)
Lemma greedy_longest s r :
  k (dropWhile p s) = Some r -> greedy_star p k s = Some r.
Proof.
  induction s as [|x s IH]; simpl; [auto|].
  destruct (p x); [|auto].
  intros H. rewrite (IH H). reflexivity.
Qed.

Lemma greedy_none s :
  (forall a b, s = a ++ b -> k b = None) -> greedy_star p k s = None.
Proof.
  induction s as [|x s IH]; simpl; intros H.
  - apply (H [] []). reflexivity.
  - assert (Hs : greedy_star p k s = None).
    { apply IH. intros a b ->. apply (H (x :: a) b). reflexivity. }
    rewrite Hs. destruct (p x); apply (H [] (x :: s)); reflexivity.
Qed.

Lemma lazy_cons x s :
  lazy_star p k (x :: s) =
  match k (x :: s) with
  | Some r => Some r
  | None => if p x then lazy_star p k s else None
  end.
Proof. reflexivity. Qed.

(** Some way of sharing the input out is enough for a match. *)
Lemma greedy_some s :
  (exists a b, s = a ++ b /\ forallb p a = true /\ k b <> None) ->
  exists r, greedy_star p k s = Some r.
Proof.
  induction s as [|x s IH]; intros (a & b & Hs & Ha & Hb).
  - destruct a, b; try discriminate. simpl.
    destruct (k []); [eauto | congruence].
  - destruct a as [|y a]; simpl in Hs.
    + subst b. simpl.
      destruct (p x), (greedy_star p k s), (k (x :: s));
        eauto; congruence.
    + injection Hs as <- ->. simpl in Ha.
      apply andb_true_iff in Ha. destruct Ha as [Hx Ha].
      simpl. rewrite Hx.
      destruct IH as [r Hr]; [eauto|]. rewrite Hr. eauto.
Qed.

End Stars.

Lemma match_lits_gen w r s :
  match_here (map Lit w ++ r) s =
  match strip_prefix w s with
  | Some s' => match_here r s'
  | None => None
  end.
Proof.
  revert s. induction w as [|c w IH]; simpl; intros s; [reflexivity|].
  destruct s as [|x s]; [reflexivity|].
  destruct (Ascii.eqb x c); [apply IH | reflexivity].
Qed.

Lemma search_inv r s m :
  search r s = Some m -> exists a b, s = a ++ b /\ match_here r b = Some m.
Proof.
  induction s as [|x s IH]; simpl.
  - destruct (match_here r []) eqn:E; [|discriminate].
    intros H. exists [], []. split; [reflexivity | congruence].
  - destruct (match_here r (x :: s)) eqn:E.
    + intros H. exists [], (x :: s). split; [reflexivity | congruence].
    + intros H. destruct (IH H) as (a & b & -> & Hb).
      exists (x :: a), b. auto.
Qed.

(** [re.search] returns the match at the first position that has one. *)
Lemma search_first r pre rest m :
  (forall a b, pre = a ++ b -> b <> [] -> match_here r (b ++ rest) = None) ->
  match_here r rest = Some m ->
  search r (pre ++ rest) = Some m.
Proof.
  induction pre as [|x pre IH]; intros Hpre Hm.
  - simpl. destruct rest; simpl; rewrite Hm; reflexivity.
  - assert (H0 := Hpre [] (x :: pre) eq_refl ltac:(discriminate)).
    simpl in *. rewrite H0.
    apply IH; [|exact Hm].
    intros a b -> Hb. apply (Hpre (x :: a) b); auto.
Qed.

Lemma search_hit r s m : match_here r s = Some m -> search r s = Some m.
Proof. intros H. destruct s; simpl; rewrite H; reflexivity. Qed.

Lemma search_skip r pre rest :
  (forall a b, pre = a ++ b -> b <> [] -> match_here r (b ++ rest) = None) ->
  search r (pre ++ rest) = search r rest.
Proof.
  induction pre as [|x pre IH]; intros Hpre; [reflexivity|].
  assert (H0 := Hpre [] (x :: pre) eq_refl ltac:(discriminate)).
  simpl in *. rewrite H0.
  apply IH. intros a b -> Hb. apply (Hpre (x :: a) b); auto.
Qed.

End ReFacts.

Lemma greedy_none_class {A} p (k : text -> option A) s :
  (forall a b, s = a ++ b -> forallb p a = true -> k b = None) ->
  greedy_star p k s = None.
Proof.
  induction s as [|x s IH]; intros H.
  - simpl. apply (H [] []); reflexivity.
  - simpl. destruct (p x) eqn:Px.
    + rewrite IH.
      * apply (H [] (x :: s)); reflexivity.
      * intros a b -> Ha. apply (H (x :: a) b); [reflexivity|].
        simpl. rewrite Px. exact Ha.
    + apply (H [] (x :: s)); reflexivity.
Qed.

(** ** Facts about captured numbers *)

Lemma number_inv s m :
  match_here number s = Some m ->
  exists ip fp rest,
    s = ip ++ "."%char :: fp ++ rest /\ ip <> [] /\ fp <> [] /\
    forallb isdigit ip = true /\ forallb isdigit fp = true /\
    m = [s; rest; rest].
Proof.
  unfold number. simpl.
  destruct s as [|x s]; [discriminate|].
  destruct (isdigit x) eqn:Hx; [|discriminate].
  destruct (greedy_star isdigit _ s) as [m'|] eqn:Hg; [|discriminate].
  simpl. intros H. injection H as <-.
  apply ReFacts.greedy_inv in Hg. destruct Hg as (a & b & -> & Ha & Hb).
  destruct b as [|c b]; [discriminate|].
  destruct (Ascii.eqb_spec c "."%char); [subst c|discriminate].
  destruct b as [|y b]; [discriminate|].
  destruct (isdigit y) eqn:Hy; [|discriminate].
  apply ReFacts.greedy_inv in Hb. destruct Hb as (a' & b' & -> & Ha' & Hb').
  simpl in Hb'. injection Hb' as <-.
  exists (x :: a), (y :: a'), b'. simpl. rewrite Hx, Hy, Ha, Ha'.
  repeat split; discriminate.
Qed.

Lemma number_match ip fp rest :
  ip <> [] -> fp <> [] ->
  forallb isdigit ip = true -> forallb isdigit fp = true ->
  isdigit (hd nl rest) = false ->
  match_here number (ip ++ "."%char :: fp ++ rest)
  = Some [ip ++ "."%char :: fp ++ rest; rest; rest].
Proof.
  intros Hip Hfp Dip Dfp Hrest.
  destruct ip as [|x ip]; [congruence|].
  destruct fp as [|y fp]; [congruence|].
  simpl in Dip, Dfp.
  apply andb_true_iff in Dip. destruct Dip as [Hx Dip].
  apply andb_true_iff in Dfp. destruct Dfp as [Hy Dfp].
  unfold number. simpl. rewrite Hx.
  erewrite ReFacts.greedy_longest; [reflexivity|].
  rewrite dropWhile_app_all by exact Dip. simpl. rewrite Hy.
  erewrite ReFacts.greedy_longest; [reflexivity|].
  rewrite dropWhile_app_all by exact Dfp.
  rewrite dropWhile_stuck; [reflexivity|].
  destruct rest; [exact I | exact Hrest].
Qed.

Lemma py_float_literal ip fp :
  ip <> [] -> fp <> [] ->
  forallb isdigit ip = true -> forallb isdigit fp = true ->
  regex_parser.py_float (ip ++ "."%char :: fp)
  = Ok (binary64 (regex_parser.literal_value ip fp)).
Proof.
  intros Hip Hfp Dip Dfp. unfold regex_parser.py_float.
  rewrite takeWhile_app_all, dropWhile_app_all by exact Dip.
  simpl. rewrite app_nil_r.
  destruct ip as [|x ip]; [congruence|].
  rewrite (takeWhile_id _ _ Dfp), (dropWhile_all _ _ Dfp).
  destruct fp as [|y fp]; [congruence|]. reflexivity.
Qed.

Lemma scaled_nonneg m e : (0 <= scaled m e)%Q.
Proof.
  unfold scaled. rewrite Qred_correct.
  apply Qmult_le_0_compat; [unfold Qle; simpl; lia|].
  apply Qpower_0_le. discriminate.
Qed.

(** The sign of a quotient is the sign of the numerator over a positive
    denominator. *)
Lemma SFdiv_sign s n d :
  match SpecFloat.SFdiv 53 1024 (SpecFloat.S754_finite s n 0)
          (SpecFloat.S754_finite false d 0) with
  | SpecFloat.S754_finite s' _ _ => s' = s
  | SpecFloat.S754_infinity s' => s' = s
  | _ => True
  end.
Proof.
  unfold SpecFloat.SFdiv.
  destruct (SpecFloat.SFdiv_core_binary _ _ _ _ _ _) as [[mz ez] lz].
  unfold SpecFloat.binary_round_aux.
  destruct (SpecFloat.shr_fexp _ _ mz ez lz) as [mrs e'].
  destruct (SpecFloat.shr_fexp _ _ _ e' _) as [mrs' e''].
  destruct (SpecFloat.shr_m mrs'); [exact I| |exact I].
  destruct (Z.leb e'' _); destruct s; reflexivity.
Qed.

Lemma binary64_nonneg q : (0 <= Qnum q)%Z -> nonneg (binary64 q).
Proof.
  intros Hq. unfold binary64.
  destruct (Qnum q) as [|n|n]; [apply Qle_refl | | lia].
  change (Z.abs (Z.pos n)) with (Z.pos n).
  change (Z.pos n <? 0)%Z with false. cbv iota.
  pose proof (SFdiv_sign false n (Qden q)) as Hs.
  destruct (SpecFloat.SFdiv _ _ _ _) as [s|s| |s m e]; simpl;
    try apply Qle_refl; subst; [reflexivity | apply scaled_nonneg].
Qed.

Lemma literal_nonneg ip fp :
  nonneg (binary64 (regex_parser.literal_value ip fp)).
Proof. apply binary64_nonneg. simpl. lia. Qed.

Lemma match_app_inv r1 r2 s m :
  match_here (r1 ++ r2) s = Some m ->
  exists s' m1 m2,
    m = m1 ++ m2 /\ length m1 = count_marks r1 /\
    match_here r2 s' = Some m2.
Proof.
  revert s m. induction r1 as [|a r1 IH]; intros s m H.
  - exists s, [], m. auto.
  - destruct a as [c|p|p|p|w|]; simpl in H.
    + destruct s as [|x s]; [discriminate|].
      destruct (Ascii.eqb x c); [|discriminate]. exact (IH _ _ H).
    + destruct s as [|x s]; [discriminate|].
      destruct (p x); [|discriminate]. exact (IH _ _ H).
    + apply ReFacts.greedy_inv in H. destruct H as (a & b & _ & _ & Hb).
      exact (IH _ _ Hb).
    + apply ReFacts.lazy_inv in H. destruct H as (a & b & _ & _ & Hb).
      exact (IH _ _ Hb).
    + destruct (strip_prefix w s) as [s'|].
      * destruct (match_here (r1 ++ r2) s') eqn:E.
        -- injection H as <-. exact (IH _ _ E).
        -- exact (IH _ _ H).
      * exact (IH _ _ H).
    + destruct (match_here (r1 ++ r2) s) as [m'|] eqn:E; [|discriminate].
      simpl in H. injection H as <-.
      destruct (IH _ _ E) as (s' & m1 & m2 & -> & Hl & Hm).
      exists s', (s :: m1), m2. unfold count_marks in *. simpl.
      rewrite Hl. auto.
Qed.

Lemma match_app_split r1 r2 s m :
  match_here (r1 ++ r2) s = Some m ->
  exists a s' m1 m2,
    s = a ++ s' /\ m = m1 ++ m2 /\ length m1 = count_marks r1 /\
    match_here r2 s' = Some m2.
Proof.
  revert s m. induction r1 as [|x r1 IH]; intros s m H.
  - exists [], s, [], m. auto.
  - destruct x as [c|p|p|p|w|]; simpl in H.
    + destruct s as [|y s]; [discriminate|].
      destruct (Ascii.eqb y c); [|discriminate].
      destruct (IH _ _ H) as (a & s' & m1 & m2 & -> & -> & Hl & H').
      exists (y :: a), s', m1, m2. auto.
    + destruct s as [|y s]; [discriminate|].
      destruct (p y); [|discriminate].
      destruct (IH _ _ H) as (a & s' & m1 & m2 & -> & -> & Hl & H').
      exists (y :: a), s', m1, m2. auto.
    + apply ReFacts.greedy_inv in H. destruct H as (a & b & -> & _ & Hb).
      destruct (IH _ _ Hb) as (a' & s' & m1 & m2 & -> & -> & Hl & H').
      exists (a ++ a'), s', m1, m2. rewrite <- app_assoc. auto.
    + apply ReFacts.lazy_inv in H. destruct H as (a & b & -> & _ & Hb).
      destruct (IH _ _ Hb) as (a' & s' & m1 & m2 & -> & -> & Hl & H').
      exists (a ++ a'), s', m1, m2. rewrite <- app_assoc. auto.
    + destruct (strip_prefix w s) as [s0|] eqn:E.
      * destruct (match_here (r1 ++ r2) s0) as [m0|] eqn:E'.
        -- injection H as <-. apply strip_prefix_inv in E. subst s.
           destruct (IH _ _ E') as (a' & s' & m1 & m2 & -> & -> & Hl & H').
           exists (w ++ a'), s', m1, m2. rewrite <- app_assoc. auto.
        -- destruct (IH _ _ H) as (a' & s' & m1 & m2 & -> & -> & Hl & H').
           exists a', s', m1, m2. auto.
      * destruct (IH _ _ H) as (a' & s' & m1 & m2 & -> & -> & Hl & H').
        exists a', s', m1, m2. auto.
    + destruct (match_here (r1 ++ r2) s) as [m'|] eqn:E; [|discriminate].
      simpl in H. injection H as <-.
      destruct (IH _ _ E) as (a' & s' & m1 & m2 & -> & -> & Hl & H').
      exists a', s', ((a' ++ s') :: m1), m2.
      unfold count_marks in *. simpl. rewrite Hl. auto.
Qed.

(** Whatever a pattern ending in [(\d+\.\d+)] captures there is a literal
    [float] accepts. *)
Lemma captured_number pre n s m :
  count_marks pre = 2 * n ->
  search (pre ++ number) s = Some m ->
  exists ip fp,
    ip <> [] /\ fp <> [] /\
    forallb isdigit ip = true /\ forallb isdigit fp = true /\
    group (S n) m = ip ++ "."%char :: fp.
Proof.
  intros Hn H.
  apply ReFacts.search_inv in H. destruct H as (a & b & _ & H).
  apply match_app_inv in H. destruct H as (s' & m1 & m2 & -> & Hl & H).
  apply number_inv in H.
  destruct H as (ip & fp & rest & -> & Hip & Hfp & Dip & Dfp & ->).
  exists ip, fp. repeat split; auto.
  unfold group.
  replace (2 * S n - 2) with (length m1 + 0) by lia.
  replace (2 * S n - 1) with (length m1 + 1) by lia.
  rewrite !nth_error_app2 by lia.
  replace (length m1 + 0 - length m1) with 0 by lia.
  replace (length m1 + 1 - length m1) with 1 by lia.
  simpl.
  replace (ip ++ "."%char :: fp ++ rest)
    with ((ip ++ "."%char :: fp) ++ rest)
    by (rewrite <- app_assoc; reflexivity).
  apply between_app.
Qed.

(** ** The pattern extractor always returns *)

Import regex_parser.

Lemma money_field_ok pre t :
  count_marks pre = 0 ->
  exists v, money_field (pre ++ number) t = Ok v.
Proof.
  intros Hpre. unfold money_field.
  destruct (search (pre ++ number) t) as [m|] eqn:E; [|eauto].
  destruct (captured_number pre 0 t m Hpre E)
    as (ip & fp & Hip & Hfp & Dip & Dfp & ->).
  rewrite py_float_literal by assumption. simpl. eauto.
Qed.

Lemma total_re_shape :
  total_re = (lits "TOTAL:" ++ [Star isspace; Lit "$"]) ++ number.
Proof. reflexivity. Qed.

Lemma subtotal_re_shape :
  subtotal_re = (lits "Subtotal:" ++ [Star isspace; Lit "$"]) ++ number.
Proof. reflexivity. Qed.

Lemma tax_re_shape :
  tax_re = (lits "Tax" ++ [LazyStar dot; Lit ":"; Star isspace; Lit "$"])
           ++ number.
Proof. reflexivity. Qed.

Lemma item_re_shape :
  item_re =
  ([Lit "-"; Star isspace; Mark; Cls dot; LazyStar dot; Mark; Star isspace]
   ++ lits "..." ++ [Star isspace; Lit "$"]) ++ number.
Proof. reflexivity. Qed.

Lemma parse_items_ok lines acc :
  exists its, parse_items lines acc = Ok its.
Proof.
  revert acc. induction lines as [|line rest IH]; intros acc; simpl.
  - eauto.
  - destruct (startswith _ (strip line)); [|auto].
    destruct (search item_re line) as [m|] eqn:E; [|auto].
    rewrite item_re_shape in E.
    apply (captured_number _ 1) in E; [|reflexivity].
    destruct E as (ip & fp & Hip & Hfp & Dip & Dfp & ->).
    rewrite py_float_literal by assumption. simpl.
    apply IH.
Qed.

(** The record [parse_receipt] returns, field by field. *)
Lemma parse_receipt_fields t :
  exists r,
    parse_receipt t = Ok r /\
    merchant r = first_nonblank (split nl (strip t)) /\
    date r = text_field date_re t /\
    invoice_number r = text_field invoice_re t /\
    money_field total_re t = Ok (total r) /\
    money_field subtotal_re t = Ok (subtotal r) /\
    money_field tax_re t = Ok (tax r) /\
    parse_items (split nl (strip t)) [] = Ok (items r) /\
    parser_used r = "regex"%string.
Proof.
  unfold parse_receipt.
  destruct (money_field_ok _ t (eq_refl : count_marks
    (lits "TOTAL:" ++ [Star isspace; Lit "$"]) = 0)) as [vt Ht].
  destruct (money_field_ok _ t (eq_refl : count_marks
    (lits "Subtotal:" ++ [Star isspace; Lit "$"]) = 0)) as [vs Hs].
  destruct (money_field_ok _ t (eq_refl : count_marks
    (lits "Tax" ++ [LazyStar dot; Lit ":"; Star isspace; Lit "$"]) = 0))
    as [vx Hx].
  rewrite <- total_re_shape in Ht. rewrite <- subtotal_re_shape in Hs.
  rewrite <- tax_re_shape in Hx.
  destruct (parse_items_ok (split nl (strip t)) []) as (its & Hi).
  rewrite Ht, Hs, Hx. simpl. rewrite Hi. simpl.
  eexists. repeat split; reflexivity.
Qed.

Lemma text_field_none re t : search re t = None -> text_field re t = None.
Proof. unfold text_field. intros ->. reflexivity. Qed.

Lemma money_field_none re t v :
  search re t = None -> money_field re t = Ok v -> v = None.
Proof. unfold money_field. intros ->. congruence. Qed.

(** C4. [parse_receipt] returns a record on every string, the empty one
    included, and never raises; a field whose pattern finds nothing is
    [None] whatever the other fields are. *)
Theorem pattern_extractor_never_raises :
  (forall t : text,
     exists r,
       parse_receipt t = Ok r /\
       (search date_re t = None -> date r = None) /\
       (search invoice_re t = None -> invoice_number r = None) /\
       (search total_re t = None -> total r = None) /\
       (search subtotal_re t = None -> subtotal r = None) /\
       (search tax_re t = None -> tax r = None)) /\
  parse_receipt [] =
    Ok {| merchant := None; date := None; invoice_number := None;
          items := []; subtotal := None; tax := None; total := None;
          parser_used := "regex" |}.
Proof.
  split; [|reflexivity].
  intros t.
  destruct (parse_receipt_fields t)
    as (r & Hr & _ & Hd & Hi & Ht & Hs & Hx & _).
  exists r. split; [exact Hr|].
  rewrite Hd, Hi.
  repeat split; intros H;
    eauto using text_field_none, money_field_none.
Qed.

(** The receipt kept as test data at the end of [regex_parser.py], with the
    three assertions made on it there. *)
Example sample_receipt_assertions :
  exists r,
    parse_receipt
      (unlines [""; "ACME Office Supplies"; "123 Business St, New York";
                "Date: 2024-01-15"; "Invoice #: INV-2024-001"; "";
                "Items:"; "- Paper (A4, 5 reams) ... $45.00";
                "- Pens (Blue, pack of 12) ... $8.50";
                "- Stapler ... $12.99"; ""; "Subtotal: $66.49";
                "Tax (8%): $5.32"; "TOTAL: $71.81"; "";
                "Thank you for your business!"; ""]%string) = Ok r /\
    merchant r = Some (txt "ACME Office Supplies") /\
    total r = Some (binary64 71.81%Q) /\
    length (items r) = 3.
Proof. eexists. vm_compute. auto. Qed.

(** A bullet line without the three dots is left out; the lines around it
    are kept, in their order. *)
Example line_without_dots_skipped :
  exists r,
    parse_receipt
      (unlines ["Shop"; "- Pens ... $8.50"; "- Stapler $12.99";
                "- Paper ... $45.00"]%string) = Ok r /\
    items r = [ {| description := txt "Pens"; amount := binary64 8.50%Q |};
                {| description := txt "Paper"; amount := binary64 45.00%Q |} ].
Proof. eexists. vm_compute. auto. Qed.

(** The float model on known values: [0.1] and the literal one digit longer
    are the same float; [2^53 + 1] is not a float and rounds to [2^53];
    [45.00] is exact; a literal of 310 digits overflows, one below
    [2^-1075] is zero. *)
Example float_samples :
  binary64 0.1%Q = Finite (3602879701896397 # 36028797018963968) /\
  binary64 0.10000000000000001%Q = binary64 0.1%Q /\
  binary64 9007199254740993.00%Q = Finite 9007199254740992%Q /\
  binary64 45.00%Q = Finite 45%Q /\
  binary64 3.60%Q = Finite (8106479329266893 # 2251799813685248) /\
  py_float (txt "1" ++ repeat "0"%char 309 ++ txt ".0")
  = Ok (Infinity false) /\
  py_float (txt "0." ++ repeat "0"%char 400 ++ txt "1") = Ok (Finite 0%Q).
Proof. repeat split; vm_compute; reflexivity. Qed.

(** C6. Scenario A: the record extracted from the ACME receipt. Its amounts
    are the floats 45.00, 3.60 and 48.60, the values Python gives these
    literals: 45 itself, and the binary64 numbers next to 3.6 and 48.6. *)
Theorem scenario_a_record :
  parse_receipt scenario_a =
    Ok {| merchant := Some (txt "ACME Office Supplies");
          date := Some (txt "2024-01-15");
          invoice_number := Some (txt "INV-2024-001");
          items := [ {| description := txt "Paper";
                        amount := binary64 45.00%Q |} ];
          subtotal := Some (binary64 45.00%Q);
          tax := Some (binary64 3.60%Q);
          total := Some (binary64 48.60%Q);
          parser_used := "regex" |} /\
  binary64 45.00%Q = Finite 45%Q /\
  binary64 3.60%Q = Finite (8106479329266893 # 2251799813685248) /\
  binary64 48.60%Q = Finite (6839841934068941 # 140737488355328).
Proof. repeat split; vm_compute; reflexivity. Qed.

(** ** The endpoints *)

Lemma text_eqb_refl s : text_eqb s s = true.
Proof.
  induction s as [|x s IH]; simpl; [reflexivity|].
  rewrite Ascii.eqb_refl. exact IH.
Qed.

Lemma py_eq_opt_str (o : option text) :
  py_eq (api.opt_json JStr o) (api.opt_json JStr o) = true.
Proof. destruct o; simpl; [apply text_eqb_refl | reflexivity]. Qed.

Lemma py_eq_opt_num (o : option float64) :
  py_eq (api.opt_json api.float_json o) (api.opt_json api.float_json o)
  = true.
Proof.
  destruct o as [[q|b]|]; simpl; try reflexivity.
  - apply Qeq_bool_iff. reflexivity.
  - apply Bool.eqb_reflx.
Qed.

(** C1. Auto mode on a non-blank text: when the model extractor raises and
    the pattern extractor returns [r], the answer carries [r] unchanged as
    its data, the tag [regex_fallback], and no usage statistics. (The
    dictionary inside keeps the tag [regex] the pattern extractor gave it.) *)
Theorem auto_falls_back_to_pattern
    (llm_parse : text -> result (dict * Usage)) (t : text) (e : exn)
    (r : Receipt) :
  api.is_blank t = false ->
  llm_parse t = Raise e ->
  parse_receipt t = Ok r ->
  api.parse_receipt llm_parse parse_receipt
    {| api.receipt_text := t; api.parser := api.auto |}
  = api.Respond {| api.success := true;
                   api.parser_used := "regex_fallback";
                   api.data := Some (api.as_dict r);
                   api.error := None;
                   api.usage := None |} /\
  get "parser_used" (api.as_dict r) = JStr (txt "regex").
Proof.
  intros Hb Hl Hr. split.
  - unfold api.parse_receipt. simpl. rewrite Hb, Hl, Hr. reflexivity.
  - destruct (parse_receipt_fields t) as (r' & Hr' & Hf).
    rewrite Hr in Hr'. injection Hr' as <-.
    unfold get, get_default, api.as_dict. simpl.
    replace (parser_used r) with "regex"%string by (symmetry; apply Hf).
    reflexivity.
Qed.

Lemma auto_falls_back_to_pattern_witness :
  exists r,
    parse_receipt scenario_a = Ok r /\
    api.parse_receipt
      (llm_parser.parse_receipt None (fun _ => Raise (Exn APIError "down"))
         (fun _ => Raise (Exn JSONDecodeError "Expecting value")))
      parse_receipt
      {| api.receipt_text := scenario_a; api.parser := api.auto |}
    = api.Respond {| api.success := true;
                     api.parser_used := "regex_fallback";
                     api.data := Some (api.as_dict r);
                     api.error := None;
                     api.usage := None |}.
Proof.
  eexists. split; [vm_compute; reflexivity|].
  apply (proj1 (auto_falls_back_to_pattern
                  (llm_parser.parse_receipt None
                     (fun _ => Raise (Exn APIError "down"))
                     (fun _ => Raise (Exn JSONDecodeError "Expecting value")))
                  scenario_a
                  (Exn ValueError "ANTHROPIC_API_KEY not found!") _
                  eq_refl eq_refl eq_refl)).
Defined.

(** What [/compare] does on a non-blank text whenever it answers: a failure
    of either parser is reported in its own entry next to the other
    parser's entry, every answer holds a comparison exactly when both
    entries are successes, and two successes whose comparison can be
    computed are answered with it. *)
Theorem compare_reports_independently
    (llm_parse : text -> result (dict * Usage))
    (regex_parse : text -> result Receipt) (t : text)
    (p : api.parser_choice) :
  api.is_blank t = false ->
  let request := {| api.receipt_text := t; api.parser := p |} in
  let llm_entry :=
    match llm_parse t with
    | Ok (d, u) => api.Success d (Some u)
    | Raise e => api.Failure (exn_msg e)
    end in
  let regex_entry :=
    match regex_parse t with
    | Ok r => api.Success (api.as_dict r) None
    | Raise e => api.Failure (exn_msg e)
    end in
  (api.succeeded llm_entry = false \/ api.succeeded regex_entry = false ->
   api.compare_parsers llm_parse regex_parse request
   = api.Respond {| api.results_llm := llm_entry;
                    api.results_regex := regex_entry;
                    api.results_comparison := None |}) /\
  (forall res,
     api.compare_parsers llm_parse regex_parse request = api.Respond res ->
     api.results_llm res = llm_entry /\
     api.results_regex res = regex_entry /\
     (api.results_comparison res <> None <->
      api.succeeded (api.results_llm res) = true /\
      api.succeeded (api.results_regex res) = true)) /\
  (forall d u d' u' c,
     llm_entry = api.Success d u -> regex_entry = api.Success d' u' ->
     api.compare d d' = Ok c ->
     api.compare_parsers llm_parse regex_parse request
     = api.Respond {| api.results_llm := llm_entry;
                      api.results_regex := regex_entry;
                      api.results_comparison := Some c |}).
Proof.
  intros Hb request llm_entry regex_entry.
  unfold api.compare_parsers. simpl. rewrite Hb.
  fold llm_entry regex_entry.
  split; [|split].
  - intros [H|H].
    + destruct llm_entry; [discriminate|]. reflexivity.
    + destruct llm_entry, regex_entry; try discriminate; reflexivity.
  - intros res.
    destruct llm_entry as [d u|e], regex_entry as [d' u'|e'];
      try (intros H; injection H as <-; simpl;
           repeat split; try tauto; try discriminate;
           intros [? ?]; discriminate).
    destruct (api.compare d d') as [c|ex]; [|discriminate].
    intros H; injection H as <-; simpl.
    repeat split; discriminate.
  - intros d u d' u' c -> -> Hc. rewrite Hc. reflexivity.
Qed.

Lemma compare_reports_independently_witness :
  api.compare_parsers
    (fun _ => Raise (Exn APIError "overloaded")) parse_receipt
    {| api.receipt_text := scenario_a; api.parser := api.auto |}
  = api.Respond
      {| api.results_llm := api.Failure "overloaded";
         api.results_regex :=
           match parse_receipt scenario_a with
           | Ok r => api.Success (api.as_dict r) None
           | Raise e => api.Failure (exn_msg e)
           end;
         api.results_comparison := None |}.
Proof.
  apply (proj1 (compare_reports_independently
                  (fun _ => Raise (Exn APIError "overloaded"))
                  parse_receipt scenario_a api.auto
                  ltac:(vm_compute; reflexivity))).
  left. reflexivity.
Defined.

(** C7, failing input. Both parsers succeed and the model's record holds
    [null] under [items]: [len] raises [TypeError] while the comparison is
    built, nothing catches it, and the endpoint gives no answer, so neither
    the two results nor a comparison are returned. *)
Theorem compare_raises_on_null_items
    (llm_parse : text -> result (dict * Usage)) (t : text)
    (p : api.parser_choice) (d : dict) (u : Usage) (r : Receipt) :
  api.is_blank t = false ->
  llm_parse t = Ok (d, u) ->
  parse_receipt t = Ok r ->
  lookup "items" d = Some JNull ->
  api.compare_parsers llm_parse parse_receipt
    {| api.receipt_text := t; api.parser := p |}
  = api.Unhandled (Exn TypeError "object has no len()").
Proof.
  intros Hb Hl Hr Hi.
  unfold api.compare_parsers. simpl. rewrite Hb, Hl, Hr.
  unfold api.compare, get_default. rewrite Hi. reflexivity.
Qed.

Lemma compare_raises_on_null_items_witness :
  api.compare_parsers
    (fun _ => Ok ([("merchant"%string, JStr (txt "ACME Office Supplies"));
                   ("items"%string, JNull);
                   ("total"%string, api.float_json (binary64 48.60%Q));
                   ("parser_used"%string, JStr (txt "llm"))],
                  {| input_tokens := 210; output_tokens := 40;
                     total_tokens := 250 |}))
    parse_receipt
    {| api.receipt_text := scenario_a; api.parser := api.auto |}
  = api.Unhandled (Exn TypeError "object has no len()").
Proof.
  apply (compare_raises_on_null_items
           (fun _ => Ok ([("merchant"%string,
                           JStr (txt "ACME Office Supplies"));
                          ("items"%string, JNull);
                          ("total"%string,
                           api.float_json (binary64 48.60%Q));
                          ("parser_used"%string, JStr (txt "llm"))],
                         {| input_tokens := 210; output_tokens := 40;
                            total_tokens := 250 |}))
           scenario_a api.auto _ _ _
           ltac:(vm_compute; reflexivity) eq_refl
           ltac:(vm_compute; reflexivity) eq_refl).
Defined.

(** C8. A record compared with itself: merchants match, totals match, and
    the two item counts are the same number. *)
Theorem compare_reflexive (a : Receipt) :
  api.compare (api.as_dict a) (api.as_dict a)
  = Ok {| api.merchant_match := true;
          api.total_match := true;
          api.items_count_llm := length (items a);
          api.items_count_regex := length (items a) |}.
Proof.
  unfold api.compare, get, get_default, api.as_dict. simpl.
  rewrite py_eq_opt_str, py_eq_opt_num, length_map. reflexivity.
Qed.

(** ** Where a labelled value is found *)

Lemma find_first w pre rest :
  find w (pre ++ rest) = Some (length pre) ->
  forall a b, pre = a ++ b -> b <> [] -> startswith w (b ++ rest) = false.
Proof.
  induction pre as [|x pre IH]; intros H a b Hab Hb.
  - destruct a, b; try discriminate. congruence.
  - simpl in H.
    destruct (startswith w (x :: pre ++ rest)) eqn:E; [discriminate|].
    destruct (find w (pre ++ rest)) as [n|] eqn:F; [|discriminate].
    simpl in H. injection H as ->.
    destruct a as [|y a]; simpl in Hab.
    + subst b. exact E.
    + injection Hab as -> ->. apply (IH eq_refl a b); auto.
Qed.

Lemma match_needs_label w r s :
  startswith w s = false -> match_here (map Lit w ++ r) s = None.
Proof.
  rewrite ReFacts.match_lits_gen. unfold startswith.
  destruct (strip_prefix w s); [discriminate | reflexivity].
Qed.

(** The leftmost occurrence of the label is where [re.search] first has a
    chance to match. *)
Lemma search_at_label w r pre rest m :
  find w (pre ++ rest) = Some (length pre) ->
  match_here (map Lit w ++ r) rest = Some m ->
  search (map Lit w ++ r) (pre ++ rest) = Some m.
Proof.
  intros Hf Hm. apply ReFacts.search_first; [|exact Hm].
  intros a b Hab Hb. apply match_needs_label.
  exact (find_first _ _ _ Hf a b Hab Hb).
Qed.

Lemma money_match w ip fp rest :
  forallb isspace w = true ->
  ip <> [] -> fp <> [] ->
  forallb isdigit ip = true -> forallb isdigit fp = true ->
  isdigit (hd nl rest) = false ->
  match_here money (w ++ "$"%char :: ip ++ "."%char :: fp ++ rest)
  = Some [ip ++ "."%char :: fp ++ rest; rest; rest].
Proof.
  intros Hw Hip Hfp Dip Dfp Hrest. unfold money.
  change (match_here ([Star isspace; Lit "$"] ++ number))
    with (greedy_star isspace (match_here (Lit "$" :: number))).
  apply ReFacts.greedy_longest.
  rewrite dropWhile_app_all by exact Hw.
  change (dropWhile isspace ("$"%char :: ?x)) with ("$"%char :: x).
  change (match_here (Lit "$" :: number) ("$"%char :: ?x))
    with (match_here number x).
  apply number_match; assumption.
Qed.

(** C5 (as amended). When the first [TOTAL:] label of the text is followed
    by a space, a dollar sign and a literal with two fractional digits,
    [total] is the float nearest to the number that literal denotes; when
    the pattern matches nowhere, [total] is [None]. *)
Theorem total_is_labelled_value (pre ip post : text) (d1 d2 : ascii) :
  let t := pre ++ txt "TOTAL:" ++ txt " $" ++ ip ++ "."%char :: [d1; d2] ++ post in
  find (txt "TOTAL:") t = Some (length pre) ->
  ip <> [] -> forallb isdigit ip = true ->
  isdigit d1 = true -> isdigit d2 = true ->
  isdigit (hd nl post) = false ->
  (exists r, parse_receipt t = Ok r /\
             total r = Some (binary64 (literal_value ip [d1; d2]))) /\
  (forall t', search total_re t' = None ->
              exists r', parse_receipt t' = Ok r' /\ total r' = None).
Proof.
  intros t Hf Hip Dip H1 H2 Hpost. split.
  - destruct (parse_receipt_fields t) as (r & Hr & _ & _ & _ & Ht & _).
    exists r. split; [exact Hr|].
    assert (Hm : search total_re t
                 = Some [ip ++ "."%char :: [d1; d2] ++ post; post; post]).
    { unfold t. apply (search_at_label (txt "TOTAL:") money); [exact Hf|].
      rewrite ReFacts.match_lits_gen, strip_prefix_app.
      apply (money_match (txt " ")); auto; try discriminate.
      simpl. rewrite H1, H2. reflexivity. }
    unfold money_field in Ht. rewrite Hm in Ht.
    assert (Hg : group 1 [ip ++ "."%char :: [d1; d2] ++ post; post; post]
                 = ip ++ "."%char :: [d1; d2]).
    { change (group 1 [?a; ?b; ?c]) with (between a b).
      replace (ip ++ "."%char :: [d1; d2] ++ post)
        with ((ip ++ "."%char :: [d1; d2]) ++ post)
        by (rewrite <- app_assoc; reflexivity).
      apply between_app. }
    rewrite Hg, py_float_literal in Ht; auto; try discriminate.
    + simpl in Ht. congruence.
    + simpl. rewrite H1, H2. reflexivity.
  - intros t' Hn.
    destruct (parse_receipt_fields t') as (r & Hr & _ & _ & _ & Ht & _).
    exists r. split; [exact Hr|].
    exact (money_field_none _ _ _ Hn Ht).
Qed.

Lemma total_is_labelled_value_witness :
  exists r,
    parse_receipt (unlines ["Shop"; "SUBTOTAL $45.00"; "TOTAL: $48.60"; "Thanks"]%string)
    = Ok r /\
    total r = Some (binary64 48.60%Q).
Proof.
  apply (proj1 (total_is_labelled_value
                  (unlines ["Shop"; "SUBTOTAL $45.00"; ""]%string)
                  (txt "48") (nl :: txt "Thanks") "6" "0"
                  eq_refl ltac:(discriminate) eq_refl eq_refl eq_refl
                  eq_refl)).
Defined.

(** C5, counterexample: a literal with more digits than a float holds is
    rounded, and [total] is then another number than the one written. *)
Lemma long_total_is_rounded :
  ~ (forall (ip : text) (d1 d2 : ascii) r,
       ip <> [] -> forallb isdigit ip = true ->
       isdigit d1 = true -> isdigit d2 = true ->
       parse_receipt (txt "TOTAL: $" ++ ip ++ "."%char :: [d1; d2]) = Ok r ->
       exists q, total r = Some (Finite q) /\
                 (q == literal_value ip [d1; d2])%Q).
Proof.
  intros H.
  destruct (H (txt "9007199254740993") "0"%char "0"%char _
              ltac:(discriminate) eq_refl eq_refl eq_refl eq_refl)
    as (q & Hq & He).
  vm_compute in Hq. injection Hq as <-.
  vm_compute in He. discriminate.
Qed.

(** ** The text after a label *)

Lemma line_spec b :
  match_here line b =
  match b with
  | y :: b' =>
      if dot y then Some [b; dropWhile dot b'; dropWhile dot b'] else None
  | [] => None
  end.
Proof.
  destruct b as [|y b']; [reflexivity|].
  unfold line. simpl. destruct (dot y); [|reflexivity].
  erewrite ReFacts.greedy_longest; reflexivity.
Qed.

Lemma line_group y b' :
  group 1 [y :: b'; dropWhile dot b'; dropWhile dot b']
  = y :: takeWhile dot b'.
Proof.
  change (group 1 [?a; ?b; ?c]) with (between a b).
  rewrite <- (take_drop_while dot b') at 1.
  apply (between_app (y :: takeWhile dot b')).
Qed.

Lemma forallb_takeWhile (q p : ascii -> bool) s :
  forallb q s = true -> forallb q (takeWhile p s) = true.
Proof.
  induction s as [|x s IH]; simpl; [reflexivity|].
  intros H. apply andb_true_iff in H. destruct H as [Hx Hs].
  destruct (p x); simpl; [rewrite Hx; auto | reflexivity].
Qed.

Lemma forallb_suffix (q : ascii -> bool) (a b : text) :
  forallb q (a ++ b) = true -> forallb q b = true.
Proof. rewrite forallb_app. intros H. apply andb_true_iff in H. tauto. Qed.

Lemma dropWhile_keeps p (c : ascii) a :
  In c a -> p c = false -> dropWhile p a <> [].
Proof.
  induction a as [|x a IH]; simpl; [tauto|].
  intros [->|Hin] Hc.
  - rewrite Hc. discriminate.
  - destruct (p x); [auto | discriminate].
Qed.

Lemma rstrip_after_ws w c l :
  isspace c = false -> rstrip (w ++ c :: l) = w ++ rstrip (c :: l).
Proof.
  intros Hc. unfold rstrip.
  rewrite rev_app_distr, dropWhile_app_stop.
  - rewrite rev_app_distr, rev_involutive. reflexivity.
  - apply (dropWhile_keeps _ c); [|exact Hc].
    apply in_rev. rewrite rev_involutive. left. reflexivity.
Qed.

Lemma strip_after_ws w c l :
  forallb isspace w = true -> isspace c = false ->
  strip (w ++ c :: l) = strip (c :: l).
Proof.
  intros Hw Hc. unfold strip, lstrip.
  rewrite rstrip_after_ws by exact Hc.
  apply dropWhile_app_all. exact Hw.
Qed.

Lemma forallb_rev (q : ascii -> bool) s :
  forallb q s = true -> forallb q (rev s) = true.
Proof.
  intros H. apply forallb_forall. intros x Hx.
  apply in_rev in Hx. revert x Hx. apply forallb_forall. exact H.
Qed.

Lemma strip_blank g : forallb isspace g = true -> strip g = [].
Proof.
  intros H. unfold strip, rstrip.
  rewrite (dropWhile_all _ _ (forallb_rev _ _ H)). reflexivity.
Qed.

(** After the label, leading whitespace is skipped, line breaks included,
    and the capture runs to the end of the line reached. *)
Lemma rest_of_line_match w c rest :
  forallb isspace w = true -> isspace c = false ->
  match_here rest_of_line (w ++ c :: rest)
  = Some [c :: rest; dropWhile dot rest; dropWhile dot rest].
Proof.
  intros Hw Hc. unfold rest_of_line.
  change (match_here (Star isspace :: line))
    with (greedy_star isspace (match_here line)).
  apply ReFacts.greedy_longest.
  rewrite dropWhile_app_all by exact Hw.
  simpl dropWhile. rewrite Hc, line_spec, (nonspace_dot _ Hc). reflexivity.
Qed.

Lemma blank_rest_none w :
  existsb dot w = false -> match_here rest_of_line w = None.
Proof.
  intros H. apply ReFacts.greedy_none. intros a b ->.
  rewrite line_spec. destruct b as [|y b]; [reflexivity|].
  rewrite existsb_app in H. apply orb_false_iff in H. destruct H as [_ H].
  simpl in H. apply orb_false_iff in H. destruct H as [-> _]. reflexivity.
Qed.

Lemma blank_rest_capture w m :
  forallb isspace w = true ->
  match_here rest_of_line w = Some m ->
  forallb isspace (group 1 m) = true.
Proof.
  intros Hw H. apply ReFacts.greedy_inv in H.
  destruct H as (a & b & -> & _ & Hb).
  apply forallb_suffix in Hw.
  rewrite line_spec in Hb. destruct b as [|y b]; [discriminate|].
  destruct (dot y); [|discriminate]. injection Hb as <-.
  rewrite line_group. simpl in *.
  apply andb_true_iff in Hw. destruct Hw as [-> Hw].
  apply forallb_takeWhile. exact Hw.
Qed.

Lemma blank_rest_some w :
  forallb isspace w = true -> existsb dot w = true ->
  exists m, match_here rest_of_line w = Some m.
Proof.
  intros Hw H. apply existsb_exists in H. destruct H as (y & Hin & Hy).
  apply in_split in Hin. destruct Hin as (a & b & ->).
  rewrite forallb_app in Hw. apply andb_true_iff in Hw. destruct Hw as [Ha _].
  apply (ReFacts.greedy_some isspace (match_here line)).
  exists a, (y :: b). repeat split; [exact Ha|].
  rewrite line_spec, Hy. discriminate.
Qed.

Lemma search_in_blank c0 w r s :
  isspace c0 = false -> forallb isspace s = true ->
  search (map Lit (c0 :: w) ++ r) s = None.
Proof.
  intros Hc. induction s as [|x s IH]; intros Hs; [reflexivity|].
  simpl in Hs. apply andb_true_iff in Hs. destruct Hs as [Hx Hs].
  simpl. destruct (Ascii.eqb_spec x c0); [congruence|]. auto.
Qed.

Lemma search_cons r x s :
  search r (x :: s) =
  match match_here r (x :: s) with
  | Some m => Some m
  | None => search r s
  end.
Proof. reflexivity. Qed.

Lemma date_at_label after :
  match_here date_re (txt "Date:" ++ after) = match_here rest_of_line after.
Proof.
  unfold date_re, lits. rewrite ReFacts.match_lits_gen, strip_prefix_app.
  reflexivity.
Qed.

Lemma date_only_blank_after pre w :
  find (txt "Date:") (pre ++ txt "Date:" ++ w) = Some (length pre) ->
  forallb isspace w = true ->
  text_field date_re (pre ++ txt "Date:" ++ w)
  = if existsb dot w then Some [] else None.
Proof.
  intros Hf Hw. unfold text_field.
  destruct (existsb dot w) eqn:E.
  - destruct (blank_rest_some w Hw E) as [m Hm].
    unfold date_re, lits.
    rewrite (search_at_label (txt "Date:") rest_of_line pre _ m Hf).
    + rewrite strip_blank; [reflexivity|].
      exact (blank_rest_capture w m Hw Hm).
    + fold (lits "Date:"). fold date_re. rewrite date_at_label. exact Hm.
  - rewrite ReFacts.search_skip.
    + change (txt "Date:" ++ w)
        with ("D"%char :: "a"%char :: "t"%char :: "e"%char :: ":"%char :: w).
      rewrite search_cons.
      change ("D"%char :: "a"%char :: "t"%char :: "e"%char :: ":"%char :: w)
        with (txt "Date:" ++ w) at 1.
      rewrite date_at_label, (blank_rest_none w E).
      unfold date_re, lits.
      do 4 (rewrite search_cons, match_needs_label by reflexivity).
      change (txt "Date:") with ("D"%char :: txt "ate:").
      rewrite (search_in_blank "D"%char); [reflexivity.. | exact Hw].
    + intros a b Hab Hb. apply match_needs_label.
      exact (find_first _ _ _ Hf a b Hab Hb).
Qed.

(** C9 (as amended). When the first [Date:] label is followed by whitespace
    that holds a line break and then by other text, [date] is the stripped
    text of the first non-blank line after the label. When only whitespace
    follows the label, [date] is [None] if that whitespace is made of line
    feeds alone, and the empty string otherwise. *)
Theorem date_after_line_break (pre w1 w2 rest : text) (c : ascii) :
  let t := pre ++ txt "Date:" ++ w1 ++ nl :: w2 ++ c :: rest in
  find (txt "Date:") t = Some (length pre) ->
  forallb isspace w1 = true ->
  forallb isspace w2 = true -> forallb dot w2 = true ->
  isspace c = false ->
  (exists r, parse_receipt t = Ok r /\
             date r = Some (strip (w2 ++ c :: takeWhile dot rest))) /\
  (forall pre' w,
     find (txt "Date:") (pre' ++ txt "Date:" ++ w) = Some (length pre') ->
     forallb isspace w = true ->
     exists r, parse_receipt (pre' ++ txt "Date:" ++ w) = Ok r /\
               date r = if existsb dot w then Some [] else None).
Proof.
  intros t Hf H1 H2 _ Hc. split.
  - destruct (parse_receipt_fields t) as (r & Hr & _ & Hd & _).
    exists r. split; [exact Hr|]. rewrite Hd. unfold text_field.
    assert (Hw : forallb isspace (w1 ++ nl :: w2) = true).
    { rewrite forallb_app. simpl. rewrite H1, H2. reflexivity. }
    assert (Hm : search date_re t
                 = Some [c :: rest; dropWhile dot rest; dropWhile dot rest]).
    { unfold t, date_re, lits.
      apply (search_at_label (txt "Date:") rest_of_line); [exact Hf|].
      fold (lits "Date:"). fold date_re. rewrite date_at_label.
      replace (w1 ++ nl :: w2 ++ c :: rest)
        with ((w1 ++ nl :: w2) ++ c :: rest)
        by (rewrite <- app_assoc; reflexivity).
      apply rest_of_line_match; assumption. }
    rewrite Hm, line_group, strip_after_ws by assumption. reflexivity.
  - intros pre' w Hf' Hw.
    destruct (parse_receipt_fields (pre' ++ txt "Date:" ++ w))
      as (r & Hr & _ & Hd & _).
    exists r. split; [exact Hr|]. rewrite Hd.
    apply date_only_blank_after; assumption.
Qed.

Lemma date_after_line_break_witness :
  exists r,
    parse_receipt (unlines ["Shop"; "Date:  "; ""; "  2024-01-15 "; "TOTAL: $1.00"]%string)
    = Ok r /\
    date r = Some (txt "2024-01-15").
Proof.
  apply (proj1 (date_after_line_break
                  (unlines ["Shop"; ""]%string)
                  (txt "  " ++ [nl]) (txt "  ")
                  (txt "024-01-15 " ++ nl :: txt "TOTAL: $1.00") "2"
                  eq_refl eq_refl eq_refl eq_refl eq_refl)).
Defined.

(** C9, counterexample: after [Date:] and a single space the date is the
    empty string, not [None]. *)
Lemma date_blank_is_not_absent :
  ~ (forall pre w : text,
       find (txt "Date:") (pre ++ txt "Date:" ++ w) = Some (length pre) ->
       forallb isspace w = true ->
       exists r, parse_receipt (pre ++ txt "Date:" ++ w) = Ok r /\
                 date r = None).
Proof.
  intros H.
  destruct (H (unlines ["Shop"; ""]%string) (txt " ") eq_refl eq_refl)
    as (r & Hr & Hd).
  vm_compute in Hr. injection Hr as <-. discriminate.
Qed.

(** ** Unwrapping a fenced reply *)

Lemma find_skipn w s n :
  find w s = Some n -> startswith w (skipn n s) = true.
Proof.
  revert n. induction s as [|x s IH]; intros n; simpl.
  - destruct (startswith w []) eqn:E; [|discriminate].
    intros H. injection H as <-. exact E.
  - destruct (startswith w (x :: s)) eqn:E.
    + intros H. injection H as <-. exact E.
    + destruct (find w s) as [n'|]; [|discriminate].
      simpl. intros H. injection H as <-. simpl. auto.
Qed.

(** A lazy repetition of any character stops at the leftmost place where
    the rest of the pattern, a literal, is found. *)
Lemma lazy_find (k : text -> option marks) w s n :
  (forall u, startswith w u = false -> k u = None) ->
  (forall u, startswith w u = true -> k u <> None) ->
  find w s = Some n ->
  lazy_star anychar k s = k (skipn n s).
Proof.
  intros Hno Hyes. revert n. induction s as [|x s IH]; intros n; simpl.
  - destruct (startswith w []); [|discriminate].
    intros H. injection H as <-. simpl. destruct (k []); reflexivity.
  - destruct (startswith w (x :: s)) eqn:E.
    + intros H. injection H as <-. simpl.
      destruct (k (x :: s)) eqn:K; [reflexivity|].
      exfalso. exact (Hyes _ E K).
    + rewrite (Hno _ E).
      destruct (find w s) as [n'|]; [|discriminate].
      simpl. intros H. injection H as <-. simpl. auto.
Qed.

Lemma between_skipn (s : text) n : between s (skipn n s) = firstn n s.
Proof.
  unfold between. rewrite length_skipn.
  destruct (Nat.le_gt_cases n (length s)) as [H|H].
  - f_equal. lia.
  - replace (length s - (length s - n)) with (length s) by lia.
    rewrite firstn_all. symmetry. apply firstn_all2. lia.
Qed.

Lemma closing_spec u :
  match_here ([Mark; Lit nl] ++ lits "```") u =
  match strip_prefix closing_fence u with
  | Some u' => Some [u; u']
  | None => None
  end.
Proof.
  change (match_here ([Mark; Lit nl] ++ lits "```") u)
    with (option_map (cons u) (match_here (map Lit closing_fence ++ []) u)).
  rewrite ReFacts.match_lits_gen.
  destruct (strip_prefix closing_fence u); reflexivity.
Qed.

Lemma lazy_find_none (k : text -> option marks) w s :
  (forall u, startswith w u = false -> k u = None) ->
  find w s = None ->
  lazy_star anychar k s = None.
Proof.
  intros Hno. induction s as [|x s IH]; simpl.
  - destruct (startswith w []) eqn:E; [discriminate|].
    intros _. rewrite (Hno _ E). reflexivity.
  - destruct (startswith w (x :: s)) eqn:E; [discriminate|].
    rewrite (Hno _ E).
    destruct (find w s); [discriminate|]. auto.
Qed.

(** An occurrence is not found earlier inside a text that holds none. *)
Lemma find_after w a s k :
  (forall a1 a2, a = a1 ++ a2 -> a2 <> [] -> startswith w (a2 ++ s) = false) ->
  find w s = Some k ->
  find w (a ++ s) = Some (length a + k).
Proof.
  induction a as [|x a IH]; intros Ha Hf; [exact Hf|].
  change ((x :: a) ++ s) with (x :: a ++ s).
  change (find w (x :: a ++ s))
    with (if startswith w (x :: a ++ s) then Some 0
          else option_map S (find w (a ++ s))).
  change (x :: a ++ s) with ((x :: a) ++ s).
  rewrite (Ha [] (x :: a) eq_refl) by discriminate.
  rewrite IH; [reflexivity | | exact Hf].
  intros a1 a2 -> Ha2. apply (Ha (x :: a1) a2); auto.
Qed.

Lemma closing_needs_nl c u : c <> nl -> startswith closing_fence (c :: u) = false.
Proof.
  intros Hc. unfold startswith, closing_fence. simpl.
  destruct (Ascii.eqb_spec c nl); [congruence | reflexivity].
Qed.

Lemma find_closing_after w2 rest k :
  forallb dot w2 = true ->
  find closing_fence rest = Some k ->
  find closing_fence (w2 ++ rest) = Some (length w2 + k).
Proof.
  intros Hd Hf. apply find_after; [|exact Hf].
  intros a1 a2 -> Ha2. destruct a2 as [|c a2]; [congruence|].
  rewrite forallb_app in Hd. apply andb_true_iff in Hd.
  destruct Hd as [_ Hd]. simpl in Hd.
  apply andb_true_iff in Hd. destruct Hd as [Hc _].
  apply closing_needs_nl. intros ->. discriminate.
Qed.

Lemma fence_line_spec s :
  match_here fence_line s =
  match s with
  | c :: y =>
      if Ascii.eqb c nl then
        option_map (cons y)
          (lazy_star anychar (match_here ([Mark; Lit nl] ++ lits "```")) y)
      else None
  | [] => None
  end.
Proof. destruct s; reflexivity. Qed.

(** From a line break on: the body runs up to the first closing fence. *)
Lemma fence_line_match y n :
  find closing_fence y = Some n ->
  exists u', match_here fence_line (nl :: y) = Some [y; skipn n y; u'].
Proof.
  intros Hf. rewrite fence_line_spec.
  change (Ascii.eqb nl nl) with true. cbv iota.
  rewrite (lazy_find _ closing_fence y n); [| | |exact Hf].
  - rewrite closing_spec. pose proof (find_skipn _ _ _ Hf) as Hs.
    unfold startswith in Hs.
    destruct (strip_prefix closing_fence (skipn n y)) as [u'|];
      [|discriminate].
    exists u'. reflexivity.
  - intros u Hu. rewrite closing_spec. unfold startswith in Hu.
    destruct (strip_prefix closing_fence u); [discriminate | reflexivity].
  - intros u Hu. rewrite closing_spec. unfold startswith in Hu.
    destruct (strip_prefix closing_fence u); discriminate.
Qed.

Lemma fence_line_none s :
  (forall y, s = nl :: y -> find closing_fence y = None) ->
  match_here fence_line s = None.
Proof.
  intros H. rewrite fence_line_spec.
  destruct s as [|c y]; [reflexivity|].
  destruct (Ascii.eqb_spec c nl) as [->|]; [|reflexivity].
  rewrite (lazy_find_none _ closing_fence); [reflexivity| |auto].
  intros u Hu. rewrite closing_spec. unfold startswith in Hu.
  destruct (strip_prefix closing_fence u); [discriminate | reflexivity].
Qed.

(** A greedy run that finds no match after any longer run stops where the
    rest of the pattern matches. *)
Lemma greedy_last_cut {A} p (k : text -> option A) a s m :
  forallb p a = true ->
  (forall a1 b, s = a1 ++ b -> a1 <> [] -> forallb p a1 = true ->
                k b = None) ->
  k s = Some m ->
  greedy_star p k (a ++ s) = Some m.
Proof.
  intros Ha Hlater Hm.
  assert (Hs : greedy_star p k s = Some m).
  { destruct s as [|x s]; [exact Hm|]. simpl.
    destruct (p x) eqn:Px; [|exact Hm].
    rewrite greedy_none_class; [exact Hm|].
    intros a1 b -> Ha1. apply (Hlater (x :: a1) b); [reflexivity| |].
    - discriminate.
    - simpl. rewrite Px. exact Ha1. }
  induction a as [|y a IH]; [exact Hs|].
  simpl in Ha. apply andb_true_iff in Ha. destruct Ha as [Hy Ha].
  simpl. rewrite Hy, (IH Ha). reflexivity.
Qed.

(** The line break that ends the opening line is the last one, within the
    whitespace after the tag, that a closing fence follows. *)
Lemma fence_tail_cut w1 z n :
  forallb isspace w1 = true ->
  find closing_fence z = Some n ->
  (forall a y, z = a ++ nl :: y -> forallb isspace a = true ->
               find closing_fence y = None) ->
  exists u',
    match_here fence_tail (w1 ++ nl :: z) = Some [z; skipn n z; u'].
Proof.
  intros Hw Hf Hlater.
  destruct (fence_line_match z n Hf) as [u' Hm]. exists u'.
  change (match_here fence_tail)
    with (greedy_star isspace (match_here fence_line)).
  apply greedy_last_cut; [exact Hw | | exact Hm].
  intros a1 b Hab Ha1 Hws.
  destruct a1 as [|x a1]; [congruence|].
  injection Hab as <- ->.
  simpl in Hws. apply fence_line_none.
  intros y ->. exact (Hlater a1 y eq_refl Hws).
Qed.

Lemma fence_tail_none v :
  (forall a y, v = a ++ nl :: y -> forallb isspace a = true ->
               find closing_fence y = None) ->
  match_here fence_tail v = None.
Proof.
  intros H.
  change (match_here fence_tail)
    with (greedy_star isspace (match_here fence_line)).
  apply greedy_none_class. intros a b -> Ha.
  apply fence_line_none. intros y ->. exact (H a y eq_refl Ha).
Qed.

Lemma fence_re_spec u :
  match_here llm_parser.fence_re (txt "```" ++ u) =
  match strip_prefix (txt "json") u with
  | Some v =>
      match match_here fence_tail v with
      | Some m => Some m
      | None => match_here fence_tail u
      end
  | None => match_here fence_tail u
  end.
Proof.
  unfold llm_parser.fence_re, lits.
  rewrite ReFacts.match_lits_gen, strip_prefix_app. reflexivity.
Qed.

Lemma no_tag_before_space v :
  isspace (hd nl v) = true -> strip_prefix (txt "json") v = None.
Proof.
  destruct v as [|x v]; [reflexivity|]. simpl. intros Hx.
  destruct (Ascii.eqb_spec x "j"%char) as [->|]; [discriminate | reflexivity].
Qed.

Lemma unfence_at_cut tag w1 z n :
  tag = txt "json" \/ tag = [] ->
  forallb isspace w1 = true ->
  find closing_fence z = Some n ->
  (forall a y, z = a ++ nl :: y -> forallb isspace a = true ->
               find closing_fence y = None) ->
  llm_parser.unfence (txt "```" ++ tag ++ w1 ++ nl :: z) = firstn n z.
Proof.
  intros Htag Hw Hf Hlater.
  destruct (fence_tail_cut w1 z n Hw Hf Hlater) as [u' Hm].
  assert (Hs : search llm_parser.fence_re
                 (txt "```" ++ tag ++ w1 ++ nl :: z)
               = Some [z; skipn n z; u']).
  { apply ReFacts.search_hit. rewrite fence_re_spec.
    destruct Htag as [->| ->].
    - rewrite strip_prefix_app, Hm. reflexivity.
    - change ([] ++ w1 ++ nl :: z) with (w1 ++ nl :: z).
      rewrite no_tag_before_space; [exact Hm|].
      destruct w1 as [|x w1]; [reflexivity|].
      simpl in Hw. apply andb_true_iff in Hw. apply Hw. }
  unfold llm_parser.unfence. rewrite Hs.
  change (startswith (txt "```") (txt "```" ++ ?x)) with true. cbv iota.
  change (group 1 [?a; ?b; ?c]) with (between a b).
  apply between_skipn.
Qed.

(** Past the indentation of a body that starts with text, no line break is
    left for the opening line to end at. *)
Lemma no_later_cut_body w2 rest a y :
  forallb dot w2 = true ->
  isspace (hd nl rest) = false ->
  w2 ++ rest = a ++ nl :: y -> forallb isspace a = true -> False.
Proof.
  revert a. induction w2 as [|c w2 IH]; intros a Hd Hr Hz Ha.
  - simpl in Hz. subst rest.
    destruct a as [|x a]; simpl in Hr; [discriminate|].
    simpl in Ha. apply andb_true_iff in Ha. destruct Ha as [Hx _].
    congruence.
  - simpl in Hd. apply andb_true_iff in Hd. destruct Hd as [Hc Hd].
    destruct a as [|x a]; simpl in Hz.
    + injection Hz as -> _. discriminate.
    + injection Hz as <- Hz. simpl in Ha.
      apply andb_true_iff in Ha. destruct Ha as [_ Ha].
      exact (IH a Hd Hr Hz Ha).
Qed.

Lemma no_later_cut_blank w2 tail a y :
  forallb dot w2 = true ->
  find closing_fence (txt "```" ++ tail) = None ->
  w2 ++ closing_fence ++ tail = a ++ nl :: y -> forallb isspace a = true ->
  find closing_fence y = None.
Proof.
  revert a. induction w2 as [|c w2 IH]; intros a Hd Hn Hz Ha.
  - destruct a as [|x a].
    + injection Hz as <-. exact Hn.
    + injection Hz as <- Hz.
      destruct a as [|x a].
      * discriminate.
      * injection Hz as <- _. discriminate.
  - simpl in Hd. apply andb_true_iff in Hd. destruct Hd as [Hc Hd].
    destruct a as [|x a]; simpl in Hz.
    + injection Hz as -> _. discriminate.
    + injection Hz as <- Hz. simpl in Ha.
      apply andb_true_iff in Ha. destruct Ha as [_ Ha].
      exact (IH a Hd Hn Hz Ha).
Qed.

Lemma unfence_fenced tag w1 w2 rest k :
  tag = txt "json" \/ tag = [] ->
  forallb isspace w1 = true ->
  forallb dot w2 = true ->
  isspace (hd nl rest) = false ->
  find closing_fence rest = Some k ->
  llm_parser.unfence (txt "```" ++ tag ++ w1 ++ nl :: w2 ++ rest)
  = w2 ++ firstn k rest.
Proof.
  intros Htag Hw Hd Hr Hf.
  rewrite (unfence_at_cut tag w1 (w2 ++ rest) (length w2 + k)); auto.
  - apply firstn_app_2.
  - apply find_closing_after; assumption.
  - intros a y Hz Ha. exfalso.
    exact (no_later_cut_body w2 rest a y Hd Hr Hz Ha).
Qed.

Lemma unfence_blank tag w1 w2 tail :
  tag = txt "json" \/ tag = [] ->
  forallb isspace w1 = true ->
  forallb dot w2 = true ->
  find closing_fence (txt "```" ++ tail) = None ->
  llm_parser.unfence
    (txt "```" ++ tag ++ w1 ++ nl :: w2 ++ closing_fence ++ tail)
  = w2.
Proof.
  intros Htag Hw Hd Hn.
  rewrite (unfence_at_cut tag w1 (w2 ++ closing_fence ++ tail)
             (length w2 + 0)); auto.
  - rewrite firstn_app_2. simpl. apply app_nil_r.
  - apply find_closing_after; [exact Hd | reflexivity].
  - intros a y Hz Ha.
    exact (no_later_cut_blank w2 tail a y Hd Hn Hz Ha).
Qed.

Lemma llm_parse_reads_json_input key mc jl t msg :
  key <> EmptyString -> mc (llm_parser.prompt t) = Ok msg ->
  llm_parser.parse_receipt (Some key) mc jl t =
  (parsed <- jl (llm_parser.json_input (llm_parser.content_text msg)) ;;
   result <- llm_parser.tag_llm parsed ;;
   Ok (result, usage_of msg)).
Proof.
  intros Hk Hm. unfold llm_parser.parse_receipt.
  destruct key; [congruence|]. rewrite Hm. reflexivity.
Qed.

(** At the head of the reply the fence is recognised only when, after the
    tag [json] or no tag, a line break within the whitespace that follows
    has a closing fence after it. *)
Lemma fence_needs_line_break u :
  (forall a y, after_tag u = a ++ nl :: y -> forallb isspace a = true ->
               find closing_fence y = None) ->
  match_here llm_parser.fence_re (txt "```" ++ u) = None.
Proof.
  intros H. rewrite fence_re_spec. unfold after_tag in H.
  destruct (strip_prefix (txt "json") u) as [v|] eqn:E.
  - rewrite (fence_tail_none v H).
    apply strip_prefix_inv in E. subst u.
    apply fence_tail_none. intros a y Hu Ha. exfalso.
    destruct a as [|x a]; [discriminate|].
    injection Hu as <- _. discriminate.
  - exact (fence_tail_none u H).
Qed.

(** C3 (as amended). A reply that, once stripped, opens with the fence
    marker, the tag [json] or no tag, whitespace and a line break is handed
    to [json.loads] unwrapped: blank lines before the body are dropped, and
    the text from the start of the body's first line, indentation included,
    up to the first line break followed by a fence marker is kept; a block
    that holds whitespace only yields the whitespace between its last two
    line breaks. A reply that does not start with a fence marker is handed
    over as it is, stripped. Under any other tag, and whenever no line
    break within the whitespace after the tag has a closing fence after it,
    the pattern does not match at the head of the reply. *)
Theorem fenced_json_reply_unwrapped (reply tag w1 w2 rest : text) (k : nat) :
  strip reply = txt "```" ++ tag ++ w1 ++ nl :: w2 ++ rest ->
  tag = txt "json" \/ tag = [] ->
  forallb isspace w1 = true ->
  forallb isspace w2 = true -> forallb dot w2 = true ->
  isspace (hd nl rest) = false ->
  find closing_fence rest = Some k ->
  llm_parser.json_input reply = w2 ++ firstn k rest /\
  (forall reply' tag' w1' w2' tail,
     strip reply'
     = txt "```" ++ tag' ++ w1' ++ nl :: w2' ++ closing_fence ++ tail ->
     tag' = txt "json" \/ tag' = [] ->
     forallb isspace w1' = true ->
     forallb isspace w2' = true -> forallb dot w2' = true ->
     find closing_fence (txt "```" ++ tail) = None ->
     llm_parser.json_input reply' = w2') /\
  (forall reply',
     startswith (txt "```") (strip reply') = false ->
     llm_parser.json_input reply' = strip reply') /\
  (forall u,
     (forall a y, after_tag u = a ++ nl :: y -> forallb isspace a = true ->
                  find closing_fence y = None) ->
     match_here llm_parser.fence_re (txt "```" ++ u) = None) /\
  (forall c u,
     isspace c = false ->
     match_here llm_parser.fence_re (txt "```json" ++ c :: u) = None /\
     (strip_prefix (txt "json") (c :: u) = None ->
      match_here llm_parser.fence_re (txt "```" ++ c :: u) = None)) /\
  (forall key mc jl t msg,
     key <> EmptyString -> mc (llm_parser.prompt t) = Ok msg ->
     llm_parser.parse_receipt (Some key) mc jl t =
     (parsed <- jl (llm_parser.json_input (llm_parser.content_text msg)) ;;
      result <- llm_parser.tag_llm parsed ;;
      Ok (result, usage_of msg))).
Proof.
  intros Hs Htag Hw1 Hw2 Hd Hr Hf.
  split; [|split; [|split; [|split; [|split]]]].
  - unfold llm_parser.json_input. rewrite Hs.
    apply unfence_fenced; assumption.
  - intros reply' tag' w1' w2' tail Hs' Htag' Hw1' _ Hd' Hn.
    unfold llm_parser.json_input. rewrite Hs'.
    apply unfence_blank; assumption.
  - intros reply' H. unfold llm_parser.json_input, llm_parser.unfence.
    rewrite H. reflexivity.
  - exact fence_needs_line_break.
  - intros c u Hc. split.
    + change (txt "```json" ++ c :: u)
        with (txt "```" ++ txt "json" ++ c :: u).
      apply fence_needs_line_break. unfold after_tag.
      rewrite strip_prefix_app. intros a y Hu Ha. exfalso.
      destruct a as [|x a].
      * injection Hu as -> _. discriminate.
      * injection Hu as <- _. simpl in Ha. rewrite Hc in Ha. discriminate.
    + intros Hj. apply fence_needs_line_break. unfold after_tag.
      rewrite Hj. intros a y Hu Ha. exfalso.
      destruct a as [|x a].
      * injection Hu as -> _. discriminate.
      * injection Hu as <- _. simpl in Ha. rewrite Hc in Ha. discriminate.
  - intros. apply llm_parse_reads_json_input; assumption.
Qed.

Lemma fenced_json_reply_unwrapped_witness :
  llm_parser.json_input
    (unlines [" ```json "; ""; "  {}"; "```"; "Hope this helps"; "```"; ""
             ]%string)
  = txt "  {}".
Proof.
  apply (proj1 (fenced_json_reply_unwrapped
                  (unlines [" ```json "; ""; "  {}"; "```";
                            "Hope this helps"; "```"; ""]%string)
                  (txt "json") (" "%char :: [nl]) (txt "  ")
                  (unlines ["{}"; "```"; "Hope this helps"; "```"]%string)
                  2 eq_refl (or_introl eq_refl) eq_refl eq_refl eq_refl
                  eq_refl eq_refl)).
Defined.

(** C3, counterexample: under any other language tag the reply reaches
    [json.loads] still fenced. *)
Lemma other_language_tag_stays_fenced :
  ~ (forall tag body : text,
       tag <> [] ->
       forallb (fun c => negb (isspace c)) tag = true ->
       llm_parser.json_input (txt "```" ++ tag ++ nl :: body ++ closing_fence)
       = body).
Proof.
  intros H.
  specialize (H (txt "JSON") (txt "{}") ltac:(discriminate) eq_refl).
  vm_compute in H. discriminate.
Qed.

(** ** Monetary values and absent fields *)

Lemma lit_in c r s m :
  match_here r s = Some m -> In (Lit c) r -> In c s.
Proof.
  revert s m. induction r as [|a r IH]; intros s m H Hin; [destruct Hin|].
  destruct Hin as [->|Hin].
  - simpl in H. destruct s as [|x s]; [discriminate|].
    destruct (Ascii.eqb_spec x c); [left; auto | discriminate].
  - destruct a as [c'|p|p|p|w|]; simpl in H.
    + destruct s as [|x s]; [discriminate|].
      destruct (Ascii.eqb x c'); [|discriminate]. right. eauto.
    + destruct s as [|x s]; [discriminate|].
      destruct (p x); [|discriminate]. right. eauto.
    + apply ReFacts.greedy_inv in H. destruct H as (a & b & -> & _ & Hb).
      apply in_or_app. right. eauto.
    + apply ReFacts.lazy_inv in H. destruct H as (a & b & -> & _ & Hb).
      apply in_or_app. right. eauto.
    + destruct (strip_prefix w s) as [s'|] eqn:E; [|eauto].
      destruct (match_here r s') eqn:E'; [|eauto].
      apply strip_prefix_inv in E. subst s.
      apply in_or_app. right. eauto.
    + destruct (match_here r s) eqn:E; [|discriminate]. eauto.
Qed.

Lemma search_lit_in c r s m :
  search r s = Some m -> In (Lit c) r -> In c s.
Proof.
  intros H Hin. apply ReFacts.search_inv in H.
  destruct H as (a & b & -> & Hb).
  apply in_or_app. right. exact (lit_in c r b m Hb Hin).
Qed.

Lemma in_dropWhile p (c : ascii) s : In c (dropWhile p s) -> In c s.
Proof.
  induction s as [|x s IH]; simpl; [tauto|].
  destruct (p x); [auto | simpl; auto].
Qed.

Lemma in_strip c s : In c (strip s) -> In c s.
Proof.
  unfold strip, lstrip, rstrip. intros H.
  apply in_dropWhile in H. apply (proj2 (in_rev _ _)) in H.
  apply in_dropWhile in H. apply (proj2 (in_rev _ _)) in H. exact H.
Qed.

Lemma in_split sep s l c : In l (split sep s) -> In c l -> In c s.
Proof.
  revert l. induction s as [|x s IH]; intros l; simpl.
  - intros [<-|[]] [].
  - destruct (Ascii.eqb x sep).
    + intros [<-|H] Hc; [destruct Hc | right; eauto].
    + destruct (split sep s) as [|l0 ls] eqn:E.
      * intros [<-|[]] [->|[]]. left. reflexivity.
      * intros [<-|H] Hc.
        -- destruct Hc as [->|Hc]; [left; reflexivity|].
           right. apply (IH l0); [left; reflexivity | exact Hc].
        -- right. apply (IH l); [right; exact H | exact Hc].
Qed.

Lemma money_field_needs_dollar pre t :
  ~ In "$"%char t -> In (Lit "$") pre -> money_field pre t = Ok None.
Proof.
  intros Hno Hin. unfold money_field.
  destruct (search pre t) as [m|] eqn:E; [|reflexivity].
  exfalso. apply Hno. exact (search_lit_in _ _ _ _ E Hin).
Qed.

Lemma parse_items_need_dollar lines acc :
  (forall l, In l lines -> ~ In "$"%char l) ->
  parse_items lines acc = Ok acc.
Proof.
  induction lines as [|line rest IH]; intros H; simpl; [reflexivity|].
  assert (Hr : parse_items rest acc = Ok acc).
  { apply IH. intros l Hl. apply H. right. exact Hl. }
  destruct (startswith _ (strip line)); [|exact Hr].
  destruct (search item_re line) as [m|] eqn:E; [|exact Hr].
  exfalso. apply (H line); [left; reflexivity|].
  apply (search_lit_in _ _ _ _ E). vm_compute. tauto.
Qed.

(** Whatever a pattern ending in [\$(\d+\.\d+)] finds: a literal that stands
    in the text after a dollar sign, captured by the last group. *)
Lemma captured_literal pre n s m :
  count_marks pre = 2 * n ->
  search (pre ++ Lit "$" :: number) s = Some m ->
  exists a ip fp b,
    s = a ++ "$"%char :: ip ++ "."%char :: fp ++ b /\
    ip <> [] /\ fp <> [] /\
    forallb isdigit ip = true /\ forallb isdigit fp = true /\
    group (S n) m = ip ++ "."%char :: fp.
Proof.
  intros Hn H.
  apply ReFacts.search_inv in H. destruct H as (a0 & b0 & -> & H).
  apply match_app_split in H.
  destruct H as (a1 & s' & m1 & m2 & -> & -> & Hl & H).
  change (match_here (Lit "$" :: number) s')
    with (match s' with
          | x :: s0 => if Ascii.eqb x "$" then match_here number s0 else None
          | [] => None
          end) in H.
  destruct s' as [|x s']; [discriminate|].
  destruct (Ascii.eqb_spec x "$"%char) as [->|]; [|discriminate].
  apply number_inv in H.
  destruct H as (ip & fp & rest & -> & Hip & Hfp & Dip & Dfp & ->).
  exists (a0 ++ a1), ip, fp, rest. rewrite <- app_assoc.
  split; [reflexivity|]. split; [exact Hip|]. split; [exact Hfp|].
  split; [exact Dip|]. split; [exact Dfp|].
  unfold group.
  replace (2 * S n - 2) with (length m1 + 0) by lia.
  replace (2 * S n - 1) with (length m1 + 1) by lia.
  rewrite !nth_error_app2 by lia.
  replace (length m1 + 0 - length m1) with 0 by lia.
  replace (length m1 + 1 - length m1) with 1 by lia.
  simpl.
  replace (ip ++ "."%char :: fp ++ rest)
    with ((ip ++ "."%char :: fp) ++ rest)
    by (rewrite <- app_assoc; reflexivity).
  apply between_app.
Qed.

Lemma money_field_priced pre t v :
  count_marks pre = 0 ->
  money_field (pre ++ Lit "$" :: number) t = Ok (Some v) ->
  nonneg v /\ priced t v.
Proof.
  intros Hp. unfold money_field.
  destruct (search (pre ++ Lit "$" :: number) t) as [m|] eqn:E;
    [|discriminate].
  destruct (captured_literal pre 0 t m Hp E)
    as (a & ip & fp & b & Ht & Hip & Hfp & Dip & Dfp & Hg).
  rewrite Hg, py_float_literal by assumption. simpl.
  intros H. injection H as <-.
  split; [apply literal_nonneg|]. exists a, ip, fp, b. auto 10.
Qed.

Lemma money_field_absent pre t o :
  count_marks pre = 0 ->
  money_field (pre ++ Lit "$" :: number) t = Ok o ->
  (o = None <-> search (pre ++ Lit "$" :: number) t = None).
Proof.
  intros Hp. unfold money_field.
  destruct (search (pre ++ Lit "$" :: number) t) as [m|] eqn:E.
  - destruct (captured_literal pre 0 t m Hp E)
      as (a & ip & fp & b & Ht & Hip & Hfp & Dip & Dfp & Hg).
    rewrite Hg, py_float_literal by assumption. simpl.
    intros H. injection H as <-. split; discriminate.
  - intros H. injection H as <-. split; reflexivity.
Qed.

Lemma parse_items_priced all lines acc :
  (forall l, In l lines -> In l all) ->
  Forall (fun i => nonneg (amount i) /\
                   exists line, In line all /\ priced line (amount i)) acc ->
  exists its,
    parse_items lines acc = Ok its /\
    Forall (fun i => nonneg (amount i) /\
                     exists line, In line all /\ priced line (amount i)) its.
Proof.
  revert acc. induction lines as [|line rest IH]; intros acc Hsub Hacc; simpl.
  - eauto.
  - assert (Hrest : forall l, In l rest -> In l all)
      by (intros l Hl; apply Hsub; right; exact Hl).
    destruct (startswith _ (strip line)); [|auto].
    destruct (search item_re line) as [m|] eqn:E; [|auto].
    destruct (captured_literal
                ([Lit "-"; Star isspace; Mark; Cls dot; LazyStar dot; Mark;
                  Star isspace] ++ lits "..." ++ [Star isspace])
                1 line m eq_refl E)
      as (a & ip & fp & b & Hl & Hip & Hfp & Dip & Dfp & Hg).
    rewrite Hg, py_float_literal by assumption. simpl.
    apply IH; [exact Hrest|]. apply Forall_app. split; [exact Hacc|].
    constructor; [|constructor]. simpl.
    split; [apply literal_nonneg|].
    exists line. split; [apply Hsub; left; reflexivity|].
    exists a, ip, fp, b. auto 10.
Qed.

(** C2 (as amended). Every monetary value of the returned record is the
    float of a literal [digits.digits], with any number of fractional
    digits, that stands in the text after a currency marker: a number that
    is not negative, or [inf]. A field is [None] exactly when its pattern
    matches nowhere in the text, so a number, zero included, is never
    stored for a value the text does not hold; a text without a currency
    marker yields [None] for subtotal, tax and total and no items. *)
Theorem money_fields_are_literal_floats (t : text) :
  exists r,
    parse_receipt t = Ok r /\
    (forall v, total r = Some v -> nonneg v /\ priced t v) /\
    (forall v, subtotal r = Some v -> nonneg v /\ priced t v) /\
    (forall v, tax r = Some v -> nonneg v /\ priced t v) /\
    Forall (fun i => nonneg (amount i) /\
                     exists line, In line (split nl (strip t)) /\
                                  priced line (amount i)) (items r) /\
    (total r = None <-> search total_re t = None) /\
    (subtotal r = None <-> search subtotal_re t = None) /\
    (tax r = None <-> search tax_re t = None) /\
    (~ In "$"%char t ->
     total r = None /\ subtotal r = None /\ tax r = None /\ items r = []).
Proof.
  destruct (parse_receipt_fields t)
    as (r & Hr & _ & _ & _ & Ht & Hs & Hx & Hi & _).
  exists r. split; [exact Hr|].
  split; [|split; [|split; [|split; [|split; [|split; [|split]]]]]].
  - intros v Hv. rewrite Hv in Ht.
    exact (money_field_priced (lits "TOTAL:" ++ [Star isspace]) t v
             eq_refl Ht).
  - intros v Hv. rewrite Hv in Hs.
    exact (money_field_priced (lits "Subtotal:" ++ [Star isspace]) t v
             eq_refl Hs).
  - intros v Hv. rewrite Hv in Hx.
    exact (money_field_priced
             (lits "Tax" ++ [LazyStar dot; Lit ":"; Star isspace]) t v
             eq_refl Hx).
  - destruct (parse_items_priced (split nl (strip t)) (split nl (strip t)) []
                (fun l H => H) (Forall_nil _)) as (its & Hi' & Hall).
    rewrite Hi in Hi'. injection Hi' as <-. exact Hall.
  - exact (money_field_absent (lits "TOTAL:" ++ [Star isspace]) t _
             eq_refl Ht).
  - exact (money_field_absent (lits "Subtotal:" ++ [Star isspace]) t _
             eq_refl Hs).
  - exact (money_field_absent
             (lits "Tax" ++ [LazyStar dot; Lit ":"; Star isspace]) t _
             eq_refl Hx).
  - intros H. repeat split.
    + rewrite money_field_needs_dollar in Ht; [congruence | exact H |].
      vm_compute. tauto.
    + rewrite money_field_needs_dollar in Hs; [congruence | exact H |].
      vm_compute. tauto.
    + rewrite money_field_needs_dollar in Hx; [congruence | exact H |].
      vm_compute. tauto.
    + rewrite parse_items_need_dollar in Hi; [congruence|].
      intros l Hl Hin. apply H. apply in_strip.
      exact (in_split _ _ _ _ Hl Hin).
Qed.

(** C2, counterexample: a total written with three fractional digits is
    returned with three fractional digits. *)
Lemma total_with_three_decimals :
  ~ (forall t r v,
       parse_receipt t = Ok r -> total r = Some v -> two_decimals v).
Proof.
  intros H.
  assert (Hv : exists r,
             parse_receipt (txt "TOTAL: $1.234") = Ok r /\
             total r = Some (Finite (694680242521899 # 562949953421312)))
    by (eexists; split; vm_compute; reflexivity).
  destruct Hv as (r & Hr & Ht).
  destruct (H _ _ _ Hr Ht) as [n Hn].
  unfold Qeq in Hn. simpl in Hn. lia.
Qed.

(** ** Matches do not depend on what follows the line break after them *)

Lemma ends_nl_cons x z : ends_nl (x :: z) -> z <> [] -> ends_nl z.
Proof.
  intros [s Hs] Hz. destruct s as [|y s]; simpl in Hs.
  - injection Hs as _ ->. congruence.
  - injection Hs as _ ->. exists s. reflexivity.
Qed.

Lemma ends_nl_single x : ends_nl [x] -> x = nl.
Proof.
  intros [s Hs]. destruct s as [|y s]; simpl in Hs.
  - congruence.
  - injection Hs as _ Hs. destruct s; discriminate.
Qed.

Lemma ends_nl_app a b : ends_nl (a ++ b) -> b <> [] -> ends_nl b.
Proof.
  induction a as [|x a IH]; simpl; [auto|].
  intros H Hb. apply IH; [|exact Hb].
  apply (ends_nl_cons x); [exact H|].
  destruct a, b; simpl; congruence.
Qed.

Lemma not_blank_nonempty (s : text) : forallb isspace s = false -> s <> [].
Proof. intros H ->. discriminate. Qed.

Lemma between_extend (a b e : text) :
  length b <= length a -> between (a ++ e) (b ++ e) = between a b.
Proof.
  intros H. unfold between. rewrite !length_app.
  replace (length a + length e - (length b + length e))
    with (length a - length b) by lia.
  rewrite firstn_app.
  replace (length a - length b - length a) with 0 by lia.
  simpl. apply app_nil_r.
Qed.

Section Stability.

Variable p : ascii -> bool.
Hypothesis p_nl : p nl = false.
Variable r : regex.
Hypothesis stable_r : stable (match_here r).

Lemma stable_star : stable (match_here (Star p :: r)).
Proof.
  intros z e Hz. simpl. induction z as [|x z IH].
  - destruct Hz as [s Hs]. destruct s; discriminate.
  - simpl. destruct (p x) eqn:Px; [|exact (stable_r _ e Hz)].
    destruct z as [|y z].
    { apply ends_nl_single in Hz. congruence. }
    rewrite IH by (apply (ends_nl_cons x); [exact Hz | discriminate]).
    destruct (greedy_star p (match_here r) (y :: z)); [reflexivity|].
    exact (stable_r _ e Hz).
Qed.

Lemma stable_cls : stable (match_here (Cls p :: r)).
Proof.
  intros z e Hz. destruct z as [|x z].
  - destruct Hz as [s Hs]. destruct s; discriminate.
  - simpl. destruct (p x) eqn:Px; [|reflexivity].
    destruct z as [|y z].
    { apply ends_nl_single in Hz. congruence. }
    apply (stable_r (y :: z) e). apply (ends_nl_cons x); [exact Hz | discriminate].
Qed.

Lemma stable_lit c : c <> nl -> stable (match_here (Lit c :: r)).
Proof.
  intros Hc z e Hz. destruct z as [|x z].
  - destruct Hz as [s Hs]. destruct s; discriminate.
  - simpl. destruct (Ascii.eqb_spec x c); [|reflexivity].
    destruct z as [|y z].
    { apply ends_nl_single in Hz. congruence. }
    apply (stable_r (y :: z) e). apply (ends_nl_cons x); [exact Hz | discriminate].
Qed.

Lemma stable_mark : stable (match_here (Mark :: r)).
Proof.
  intros z e Hz. simpl. rewrite (stable_r z e Hz).
  destruct (match_here r z); reflexivity.
Qed.

(** [\s*] can run over the line break, so it is stable only where the
    input holds something else than whitespace. *)
Lemma ws_star_stable z e :
  ends_nl z -> forallb isspace z = false ->
  match_here (Star isspace :: r) (z ++ e)
  = extend e (match_here (Star isspace :: r) z).
Proof.
  simpl. induction z as [|x z IH]; intros Hz Hb; [discriminate|].
  simpl in *. destruct (isspace x); [|exact (stable_r _ e Hz)].
  simpl in Hb.
  rewrite IH; [| apply (ends_nl_cons x); [exact Hz|] | exact Hb].
  - destruct (greedy_star isspace (match_here r) z); [reflexivity|].
    exact (stable_r _ e Hz).
  - apply not_blank_nonempty. exact Hb.
Qed.

End Stability.

Lemma stable_end : stable (match_here []).
Proof. intros z e _. reflexivity. Qed.

Lemma isdigit_nl : isdigit nl = false.
Proof. reflexivity. Qed.

Lemma stable_number : stable (match_here number).
Proof.
  unfold number.
  apply stable_mark, (stable_cls _ isdigit_nl), (stable_star _ isdigit_nl).
  apply stable_lit; [|discriminate].
  apply (stable_cls _ isdigit_nl), (stable_star _ isdigit_nl).
  apply stable_mark, stable_end.
Qed.

Lemma stable_dollar_number : stable (match_here (Lit "$" :: number)).
Proof. apply stable_lit; [exact stable_number | discriminate]. Qed.

Lemma stable_line : stable (match_here line).
Proof.
  unfold line.
  apply stable_mark, (stable_cls _ dot_nl), (stable_star _ dot_nl).
  apply stable_mark, stable_end.
Qed.

Lemma group_extend n e m :
  (forall a b, nth_error m (2 * n - 2) = Some a ->
               nth_error m (2 * n - 1) = Some b -> length b <= length a) ->
  group n (map (fun u => u ++ e) m) = group n m.
Proof.
  unfold group. generalize (2 * n - 2) (2 * n - 1). intros i j H.
  rewrite !nth_error_map. unfold text in *.
  destruct (nth_error m i) as [a|]; [|reflexivity].
  destruct (nth_error m j) as [b|]; [|reflexivity].
  simpl. apply between_extend. apply H; reflexivity.
Qed.

Lemma nonspace_count_app a b :
  nonspace_count (a ++ b) = nonspace_count a + nonspace_count b.
Proof. unfold nonspace_count. rewrite filter_app, length_app. reflexivity. Qed.

Lemma nonspace_count_blank s :
  forallb isspace s = true -> nonspace_count s = 0.
Proof.
  unfold nonspace_count. induction s as [|x s IH]; simpl; [reflexivity|].
  intros H. apply andb_true_iff in H. destruct H as [-> Hs]. simpl. auto.
Qed.

Lemma strip_prefix_extend w u e :
  ~ In nl w -> ends_nl u ->
  strip_prefix w (u ++ e)
  = option_map (fun s => s ++ e) (strip_prefix w u).
Proof.
  revert u. induction w as [|c w IH]; intros u Hw Hu; [reflexivity|].
  destruct u as [|x u].
  - destruct Hu as [s Hs]. destruct s; discriminate.
  - simpl. destruct (Ascii.eqb_spec x c); [|reflexivity].
    destruct u as [|y u].
    + apply ends_nl_single in Hu. subst. exfalso. apply Hw. left. reflexivity.
    + apply IH.
      * intros H. apply Hw. right. exact H.
      * apply (ends_nl_cons x); [exact Hu | discriminate].
Qed.

Lemma search_has_label w r u m :
  search (map Lit w ++ r) u = Some m -> exists a b, u = a ++ w ++ b.
Proof.
  intros H. apply ReFacts.search_inv in H. destruct H as (a & b & -> & H).
  rewrite ReFacts.match_lits_gen in H.
  destruct (strip_prefix w b) as [b'|] eqn:E; [|discriminate].
  apply strip_prefix_inv in E. subst b. eauto.
Qed.

(** *** Patterns of the form [label\s*rest] *)

Section Labelled.

Variable c0 : ascii.
Variable w : text.
Variable K : regex.
Hypothesis c0_nonspace : isspace c0 = false.
Hypothesis label_one_line : ~ In nl (c0 :: w).
Hypothesis stable_K : stable (match_here K).
(** On whitespace alone, the rest captures nothing but whitespace. *)
Hypothesis blank_K :
  forall b m, forallb isspace b = true -> match_here K b = Some m ->
              forallb isspace (group 1 m) = true.

Let P : regex := map Lit (c0 :: w) ++ Star isspace :: K.

Lemma labelled_after_blank u1 m :
  forallb isspace u1 = true ->
  match_here (Star isspace :: K) u1 = Some m ->
  forallb isspace (group 1 m) = true.
Proof.
  intros Hb H. apply ReFacts.greedy_inv in H.
  destruct H as (a & b & -> & _ & H).
  apply (blank_K b); [|exact H]. exact (forallb_suffix _ _ _ Hb).
Qed.

Lemma labelled_hit u e m :
  ends_nl u -> match_here P u = Some m ->
  forallb isspace (group 1 m) = false ->
  match_here P (u ++ e) = extend e (Some m).
Proof.
  intros Hu H Hg. unfold P in *.
  rewrite ReFacts.match_lits_gen in *.
  rewrite strip_prefix_extend by assumption.
  destruct (strip_prefix (c0 :: w) u) as [u1|] eqn:E; [|discriminate].
  simpl option_map. cbv iota.
  destruct (forallb isspace u1) eqn:Hb.
  - rewrite (labelled_after_blank u1 m Hb H) in Hg. discriminate.
  - rewrite (ws_star_stable K stable_K), H; [reflexivity | | exact Hb].
    apply strip_prefix_inv in E. subst u.
    apply (ends_nl_app (c0 :: w)); [exact Hu|].
    apply not_blank_nonempty. exact Hb.
Qed.

Lemma labelled_miss x u e m :
  ends_nl (x :: u) -> match_here P (x :: u) = None ->
  search P u = Some m ->
  match_here P ((x :: u) ++ e) = None.
Proof.
  intros Hu H Hs. unfold P in *.
  rewrite ReFacts.match_lits_gen in *.
  rewrite strip_prefix_extend by assumption.
  destruct (strip_prefix (c0 :: w) (x :: u)) as [u1|] eqn:E;
    [|reflexivity].
  simpl option_map. cbv iota.
  apply strip_prefix_inv in E.
  destruct (forallb isspace u1) eqn:Hb.
  - exfalso. apply search_has_label in Hs. destruct Hs as (a & b & Hab).
    injection E as -> E. rewrite Hab in E.
    apply (f_equal nonspace_count) in E.
    rewrite !nonspace_count_app, (nonspace_count_blank u1 Hb) in E.
    unfold nonspace_count at 2 in E. simpl in E.
    rewrite c0_nonspace in E. simpl in E.
    fold (nonspace_count w) in E. lia.
  - rewrite (ws_star_stable K stable_K), H; [reflexivity | | exact Hb].
    rewrite E in Hu.
    apply (ends_nl_app (c0 :: w)); [exact Hu|].
    apply not_blank_nonempty. exact Hb.
Qed.

Lemma labelled_search_stable u e m :
  ends_nl u -> search P u = Some m ->
  forallb isspace (group 1 m) = false ->
  search P (u ++ e) = extend e (Some m).
Proof.
  induction u as [|x u IH]; intros Hu H Hg.
  - destruct Hu as [s Hs]. destruct s; discriminate.
  - change ((x :: u) ++ e) with (x :: u ++ e).
    rewrite search_cons in *.
    change (x :: u ++ e) with ((x :: u) ++ e).
    destruct (match_here P (x :: u)) as [m0|] eqn:E.
    + injection H as ->. rewrite (labelled_hit _ e m Hu E Hg). reflexivity.
    + rewrite (labelled_miss x u e m Hu E H).
      apply IH; [|exact H|exact Hg].
      apply (ends_nl_cons x); [exact Hu|].
      intros ->. discriminate.
Qed.

End Labelled.

Lemma captured_number_marks pre s m :
  count_marks pre = 0 ->
  search (pre ++ number) s = Some m ->
  exists ip fp rest,
    ip <> [] /\ fp <> [] /\
    forallb isdigit ip = true /\ forallb isdigit fp = true /\
    m = [ip ++ "."%char :: fp ++ rest; rest; rest].
Proof.
  intros Hn H.
  apply ReFacts.search_inv in H. destruct H as (a & b & _ & H).
  apply match_app_inv in H. destruct H as (s' & m1 & m2 & -> & Hl & H).
  rewrite Hn in Hl. destruct m1; [|discriminate].
  apply number_inv in H.
  destruct H as (ip & fp & rest & -> & Hip & Hfp & Dip & Dfp & ->).
  exists ip, fp, rest. auto.
Qed.

Lemma number_group ip fp rest :
  group 1 [ip ++ "."%char :: fp ++ rest; rest; rest] = ip ++ "."%char :: fp.
Proof.
  change (group 1 [?a; ?b; ?c]) with (between a b).
  replace (ip ++ "."%char :: fp ++ rest)
    with ((ip ++ "."%char :: fp) ++ rest)
    by (rewrite <- app_assoc; reflexivity).
  apply between_app.
Qed.

Lemma number_group_extend ip fp rest e :
  group 1 (map (fun u => u ++ e)
             [ip ++ "."%char :: fp ++ rest; rest; rest])
  = ip ++ "."%char :: fp.
Proof.
  rewrite group_extend; [apply number_group|].
  intros a b Ha Hb. simpl in Ha, Hb. injection Ha as <-. injection Hb as <-.
  rewrite length_app. simpl. rewrite length_app. lia.
Qed.

Lemma digits_not_blank ip s :
  ip <> [] -> forallb isdigit ip = true -> forallb isspace (ip ++ s) = false.
Proof.
  destruct ip as [|x ip]; [congruence|]. simpl. intros _ H.
  apply andb_true_iff in H. destruct H as [Hx _].
  rewrite (isdigit_nonspace x Hx). reflexivity.
Qed.

Lemma dollar_number_not_on_blank b m :
  forallb isspace b = true -> match_here (Lit "$" :: number) b = Some m ->
  forallb isspace (group 1 m) = true.
Proof.
  intros Hb H. destruct b as [|x b]; [discriminate|].
  simpl in Hb, H. destruct (Ascii.eqb_spec x "$"%char); [|discriminate].
  subst x. discriminate.
Qed.

Lemma line_on_blank b m :
  forallb isspace b = true -> match_here line b = Some m ->
  forallb isspace (group 1 m) = true.
Proof.
  intros Hb H. rewrite line_spec in H. destruct b as [|y b]; [discriminate|].
  destruct (dot y); [|discriminate]. injection H as <-.
  rewrite line_group. simpl in *.
  apply andb_true_iff in Hb. destruct Hb as [-> Hb].
  apply forallb_takeWhile. exact Hb.
Qed.

(** A monetary field introduced by a one-line label. *)
Lemma labelled_money_stable c0 w u e v :
  isspace c0 = false -> ~ In nl (c0 :: w) -> ends_nl u ->
  money_field (map Lit (c0 :: w) ++ money) u = Ok (Some v) ->
  money_field (map Lit (c0 :: w) ++ money) (u ++ e) = Ok (Some v).
Proof.
  intros Hc Hw Hu. unfold money_field.
  destruct (search (map Lit (c0 :: w) ++ money) u) as [m|] eqn:E;
    [|discriminate].
  intros Hv.
  assert (E' := E).
  change (map Lit (c0 :: w) ++ money)
    with (map Lit (c0 :: w) ++ [Star isspace; Lit "$"] ++ number) in E'.
  rewrite app_assoc in E'.
  apply captured_number_marks in E'.
  2:{ unfold count_marks. rewrite filter_app, length_app.
      replace (filter is_mark (map Lit (c0 :: w))) with (@nil atom);
        [reflexivity|].
      clear. induction (c0 :: w); simpl; auto. }
  destruct E' as (ip & fp & rest & Hip & Hfp & Dip & Dfp & ->).
  change (map Lit (c0 :: w) ++ money)
    with (map Lit (c0 :: w) ++ Star isspace :: Lit "$" :: number) in *.
  rewrite (labelled_search_stable c0 w (Lit "$" :: number) Hc Hw
             stable_dollar_number dollar_number_not_on_blank u e _ Hu E).
  - change (extend e (Some ?m0)) with (Some (map (fun u => u ++ e) m0)).
    cbv iota. rewrite number_group_extend.
    rewrite number_group in Hv. exact Hv.
  - rewrite number_group. apply digits_not_blank; assumption.
Qed.

Lemma line_marks u1 m :
  match_here rest_of_line u1 = Some m ->
  exists y b, m = [y :: b; dropWhile dot b; dropWhile dot b].
Proof.
  intros H. apply ReFacts.greedy_inv in H.
  destruct H as (a & b & _ & _ & H).
  rewrite line_spec in H. destruct b as [|y b]; [discriminate|].
  destruct (dot y); [|discriminate]. injection H as <-. eauto.
Qed.

Lemma line_group_extend y b e :
  group 1 (map (fun u => u ++ e) [y :: b; dropWhile dot b; dropWhile dot b])
  = y :: takeWhile dot b.
Proof.
  rewrite group_extend; [apply line_group|].
  intros a0 b0 Ha Hb. simpl in Ha, Hb.
  injection Ha as <-. injection Hb as <-.
  rewrite <- (take_drop_while dot b) at 2. simpl. rewrite length_app. lia.
Qed.

(** A text field introduced by a one-line label. *)
Lemma labelled_text_stable c0 w u e v :
  isspace c0 = false -> ~ In nl (c0 :: w) -> ends_nl u ->
  text_field (map Lit (c0 :: w) ++ rest_of_line) u = Some v -> v <> [] ->
  text_field (map Lit (c0 :: w) ++ rest_of_line) (u ++ e) = Some v.
Proof.
  intros Hc Hw Hu. unfold text_field.
  destruct (search (map Lit (c0 :: w) ++ rest_of_line) u) as [m|] eqn:E;
    [|discriminate].
  intros Hv Hne. injection Hv as <-.
  assert (Hm : exists y b, m = [y :: b; dropWhile dot b; dropWhile dot b]).
  { apply ReFacts.search_inv in E. destruct E as (a & b & _ & E).
    rewrite ReFacts.match_lits_gen in E.
    destruct (strip_prefix (c0 :: w) b); [|discriminate].
    exact (line_marks _ _ E). }
  destruct Hm as (y & b & ->).
  unfold rest_of_line in *.
  rewrite (labelled_search_stable c0 w line Hc Hw stable_line line_on_blank
             u e _ Hu E).
  - change (extend e (Some ?m0)) with (Some (map (fun u => u ++ e) m0)).
    cbv iota. rewrite line_group_extend, line_group. reflexivity.
  - destruct (forallb isspace
                (group 1 [y :: b; dropWhile dot b; dropWhile dot b])) eqn:B;
      [|reflexivity].
    exfalso. apply Hne. apply strip_blank. exact B.
Qed.

(** *** The tax pattern, [Tax.*?:\s*\$(\d+\.\d+)] *)

Lemma colon_hit_shape b m :
  match_here colon_money b = Some m ->
  exists b', b = ":"%char :: b' /\ forallb isspace b' = false.
Proof.
  unfold colon_money. intros H.
  destruct b as [|x b]; [discriminate|]. simpl in H.
  destruct (Ascii.eqb_spec x ":"%char); [subst x|discriminate].
  exists b. split; [reflexivity|].
  apply ReFacts.greedy_inv in H. destruct H as (a & b' & -> & _ & H).
  destruct b' as [|y b']; [discriminate|].
  destruct (Ascii.eqb_spec y "$"%char); [subst y|discriminate].
  rewrite forallb_app. simpl. apply andb_false_r.
Qed.

Lemma hit_ahead_not_blank a b m :
  match_here colon_money b = Some m -> forallb isspace (a ++ b) = false.
Proof.
  intros H. apply colon_hit_shape in H. destruct H as (b' & -> & _).
  rewrite forallb_app. simpl. apply andb_false_r.
Qed.

Lemma colon_stable u e :
  ends_nl u -> forallb isspace (tl u) = false ->
  match_here colon_money (u ++ e) = extend e (match_here colon_money u).
Proof.
  intros Hu Hb. destruct u as [|x u]; [discriminate|].
  simpl in Hb. unfold colon_money.
  change (match_here (Lit ":" :: money) ((x :: u) ++ e))
    with (if Ascii.eqb x ":"
          then match_here (Star isspace :: Lit "$" :: number) (u ++ e)
          else None).
  change (match_here (Lit ":" :: money) (x :: u))
    with (if Ascii.eqb x ":"
          then match_here (Star isspace :: Lit "$" :: number) u
          else None).
  destruct (Ascii.eqb x ":"); [|reflexivity].
  apply (ws_star_stable _ stable_dollar_number); [|exact Hb].
  apply (ends_nl_cons x); [exact Hu|].
  apply not_blank_nonempty. exact Hb.
Qed.

Lemma lazy_hit_stable v e m :
  ends_nl v ->
  lazy_star dot (match_here colon_money) v = Some m ->
  lazy_star dot (match_here colon_money) (v ++ e) = extend e (Some m).
Proof.
  induction v as [|x v IH]; intros Hv H.
  - destruct Hv as [s Hs]. destruct s; discriminate.
  - change ((x :: v) ++ e) with (x :: v ++ e).
    rewrite ReFacts.lazy_cons in *.
    change (x :: v ++ e) with ((x :: v) ++ e).
    destruct (match_here colon_money (x :: v)) as [m0|] eqn:E.
    + injection H as ->.
      destruct (colon_hit_shape _ _ E) as (b' & Hb & Hnb).
      injection Hb as -> ->.
      rewrite colon_stable, E by assumption. reflexivity.
    + destruct (dot x) eqn:D; [|discriminate].
      destruct (ReFacts.lazy_inv _ _ _ _ H) as (a & b & -> & _ & Hb).
      rewrite colon_stable, E;
        [| exact Hv | exact (hit_ahead_not_blank a b m Hb)].
      simpl extend. cbv iota. apply IH; [|exact H].
      apply (ends_nl_cons x); [exact Hv|].
      apply not_blank_nonempty. exact (hit_ahead_not_blank a b m Hb).
Qed.

Lemma lazy_miss_stable v e a b m :
  ends_nl v -> v = a ++ b -> match_here colon_money b = Some m ->
  lazy_star dot (match_here colon_money) v = None ->
  lazy_star dot (match_here colon_money) (v ++ e) = None.
Proof.
  revert a. induction v as [|x v IH]; intros a Hv Hab Hb H.
  - destruct Hv as [s Hs]. destruct s; discriminate.
  - change ((x :: v) ++ e) with (x :: v ++ e).
    rewrite ReFacts.lazy_cons in *.
    change (x :: v ++ e) with ((x :: v) ++ e).
    destruct (match_here colon_money (x :: v)) as [m0|] eqn:E;
      [discriminate|].
    destruct a as [|y a]; simpl in Hab.
    + subst b. congruence.
    + injection Hab as <- ->.
      rewrite colon_stable, E;
        [| exact Hv | exact (hit_ahead_not_blank a b m Hb)].
      simpl extend. cbv iota.
      destruct (dot x); [|reflexivity].
      apply (IH a); auto.
      apply (ends_nl_cons x); [exact Hv|].
      apply not_blank_nonempty. exact (hit_ahead_not_blank a b m Hb).
Qed.

Lemma tax_at u :
  match_here tax_re u =
  match strip_prefix (txt "Tax") u with
  | Some v => lazy_star dot (match_here colon_money) v
  | None => None
  end.
Proof.
  unfold tax_re, lits. rewrite ReFacts.match_lits_gen. reflexivity.
Qed.

Lemma tax_label_one_line : ~ In nl (txt "Tax").
Proof.
  simpl. intros [H|[H|[H|[]]]]; discriminate.
Qed.

Lemma split_after (l1 v l2 b : text) :
  l1 ++ v = l2 ++ b -> length l1 <= length l2 -> exists a, v = a ++ b.
Proof.
  intros H Hl. exists (skipn (length l1) l2).
  apply (f_equal (skipn (length l1))) in H.
  rewrite !skipn_app, skipn_all, Nat.sub_diag in H. simpl in H.
  replace (length l1 - length l2) with 0 in H by lia.
  exact H.
Qed.

Lemma tax_search_stable u e m :
  ends_nl u -> search tax_re u = Some m ->
  search tax_re (u ++ e) = extend e (Some m).
Proof.
  induction u as [|x u IH]; intros Hu H.
  - destruct Hu as [s Hs]. destruct s; discriminate.
  - change ((x :: u) ++ e) with (x :: u ++ e).
    rewrite search_cons in *.
    change (x :: u ++ e) with ((x :: u) ++ e).
    rewrite !tax_at in *.
    rewrite (strip_prefix_extend _ _ _ tax_label_one_line Hu).
    destruct (strip_prefix (txt "Tax") (x :: u)) as [v|] eqn:E.
    + simpl option_map. cbv iota.
      apply strip_prefix_inv in E.
      destruct (lazy_star dot (match_here colon_money) v) as [m0|] eqn:L.
      * injection H as ->.
        rewrite (lazy_hit_stable v e m); [reflexivity| |exact L].
        destruct (ReFacts.lazy_inv _ _ _ _ L) as (a & b & -> & _ & Hb).
        rewrite E in Hu. apply (ends_nl_app (txt "Tax")); [exact Hu|].
        apply not_blank_nonempty. exact (hit_ahead_not_blank a b m Hb).
      * assert (Hlater : exists a b m', v = a ++ b /\
                           match_here colon_money b = Some m').
        { destruct (ReFacts.search_inv _ _ _ H) as (a1 & b1 & Hu1 & H1).
          rewrite tax_at in H1.
          destruct (strip_prefix (txt "Tax") b1) as [v1|] eqn:E1;
            [|discriminate].
          apply strip_prefix_inv in E1.
          destruct (ReFacts.lazy_inv _ _ _ _ H1) as (a2 & b2 & -> & _ & Hb2).
          injection E as -> E. subst u b1.
          destruct (split_after (txt "ax") v (a1 ++ txt "Tax" ++ a2) b2)
            as [a Ha].
          - change (txt "ax" ++ v) with ("a"%char :: "x"%char :: v).
            rewrite Hu1, <- !app_assoc. reflexivity.
          - rewrite !length_app. simpl. lia.
          - eauto. }
        destruct Hlater as (a & b & m' & Hab & Hb).
        assert (Hv : ends_nl v).
        { rewrite E in Hu. apply (ends_nl_app (txt "Tax")); [exact Hu|].
          apply not_blank_nonempty. rewrite Hab.
          exact (hit_ahead_not_blank a b m' Hb). }
        rewrite (lazy_miss_stable v e a b m' Hv Hab Hb L).
        apply IH; [|exact H].
        apply (ends_nl_cons x); [exact Hu|]. intros ->. discriminate.
    + simpl option_map. cbv iota.
      apply IH; [|exact H].
      apply (ends_nl_cons x); [exact Hu|]. intros ->. discriminate.
Qed.

Lemma tax_field_stable u e v :
  ends_nl u ->
  money_field tax_re u = Ok (Some v) ->
  money_field tax_re (u ++ e) = Ok (Some v).
Proof.
  intros Hu. unfold money_field.
  destruct (search tax_re u) as [m|] eqn:E; [|discriminate].
  intros Hv. assert (E' := E). rewrite tax_re_shape in E'.
  apply captured_number_marks in E'; [|reflexivity].
  destruct E' as (ip & fp & rest & Hip & Hfp & Dip & Dfp & ->).
  rewrite (tax_search_stable u e _ Hu E).
  change (extend e (Some ?m0)) with (Some (map (fun u => u ++ e) m0)).
  cbv iota. rewrite number_group_extend.
  rewrite number_group in Hv. exact Hv.
Qed.

Lemma one_line_label (w : text) :
  forallb dot w = true -> ~ In nl w.
Proof.
  intros H Hin.
  assert (D : dot nl = true).
  { apply (proj1 (forallb_forall dot w) H). exact Hin. }
  discriminate.
Qed.

(** C10 (as amended). Each labelled field takes its value at the leftmost
    position where its whole pattern matches, so positions at which the
    pattern does not match, a bare label among them, are passed over; and a
    value found in a text that ends with a line break (for the date and the
    invoice number, a non-empty value) is returned unchanged however the
    text continues after that line break. *)
Theorem found_value_survives_continuation (h e : text) :
  (exists r r',
     parse_receipt (h ++ [nl]) = Ok r /\
     parse_receipt (h ++ nl :: e) = Ok r' /\
     (forall v, total r = Some v -> total r' = Some v) /\
     (forall v, subtotal r = Some v -> subtotal r' = Some v) /\
     (forall v, tax r = Some v -> tax r' = Some v) /\
     (forall v, date r = Some v -> v <> [] -> date r' = Some v) /\
     (forall v, invoice_number r = Some v -> v <> [] ->
                invoice_number r' = Some v)) /\
  (forall re pre rest,
     (forall a b, pre = a ++ b -> b <> [] ->
                  match_here re (b ++ rest) = None) ->
     text_field re (pre ++ rest) = text_field re rest /\
     money_field re (pre ++ rest) = money_field re rest).
Proof.
  split.
  - replace (h ++ nl :: e) with ((h ++ [nl]) ++ e)
      by (rewrite <- app_assoc; reflexivity).
    assert (Hu : ends_nl (h ++ [nl])) by (exists h; reflexivity).
    destruct (parse_receipt_fields (h ++ [nl]))
      as (r & Hr & _ & Hd & Hi & Ht & Hs & Hx & _).
    destruct (parse_receipt_fields ((h ++ [nl]) ++ e))
      as (r' & Hr' & _ & Hd' & Hi' & Ht' & Hs' & Hx' & _).
    exists r, r'. split; [exact Hr|]. split; [exact Hr'|].
    split; [|split; [|split; [|split]]].
    + intros v Hv. rewrite Hv in Ht.
      apply (labelled_money_stable "T" (txt "OTAL:") _ e) in Ht;
        [| reflexivity | apply one_line_label; reflexivity | exact Hu].
      change (map Lit ("T"%char :: txt "OTAL:") ++ money) with total_re in Ht.
      congruence.
    + intros v Hv. rewrite Hv in Hs.
      apply (labelled_money_stable "S" (txt "ubtotal:") _ e) in Hs;
        [| reflexivity | apply one_line_label; reflexivity | exact Hu].
      change (map Lit ("S"%char :: txt "ubtotal:") ++ money)
        with subtotal_re in Hs.
      congruence.
    + intros v Hv. rewrite Hv in Hx.
      apply (tax_field_stable _ e) in Hx; [|exact Hu]. congruence.
    + intros v Hv Hne. rewrite Hd in Hv. rewrite Hd'.
      apply (labelled_text_stable "D" (txt "ate:")); auto.
      apply one_line_label; reflexivity.
    + intros v Hv Hne. rewrite Hi in Hv. rewrite Hi'.
      apply (labelled_text_stable "I" (txt "nvoice #:")); auto.
      apply one_line_label; reflexivity.
  - intros re pre rest H. unfold text_field, money_field.
    rewrite (ReFacts.search_skip re pre rest H). split; reflexivity.
Qed.

(** C10, counterexample: a first [TOTAL:] label without a parseable value
    is passed over, and the total comes from a later line. *)
Lemma later_total_line_is_used :
  ~ (forall pre mid later r r',
       find (txt "TOTAL:") (pre ++ txt "TOTAL:" ++ mid ++ nl :: later)
       = Some (length pre) ->
       forallb dot mid = true ->
       parse_receipt (pre ++ txt "TOTAL:" ++ mid ++ [nl]) = Ok r ->
       parse_receipt (pre ++ txt "TOTAL:" ++ mid ++ nl :: later) = Ok r' ->
       total r' = total r).
Proof.
  intros H.
  specialize (H (unlines ["Shop"; ""]%string) (txt " pending")
                (txt "TOTAL: $5.00") _ _ eq_refl eq_refl eq_refl eq_refl).
  vm_compute in H. discriminate.
Qed.


(** * Further properties of the three modules *)

(** ** Stripping *)

Lemma dropWhile_first p s x s' : dropWhile p s = x :: s' -> p x = false.
Proof.
  induction s as [|y s IH]; simpl; [discriminate|].
  destruct (p y) eqn:E; [exact IH|].
  intros H. injection H as -> _. exact E.
Qed.

Lemma dropWhile_fixed p s : dropWhile p (dropWhile p s) = dropWhile p s.
Proof.
  induction s as [|x s IH]; simpl; [reflexivity|].
  destruct (p x) eqn:E; [exact IH|]. simpl. rewrite E. reflexivity.
Qed.

Lemma dropWhile_all_inv p s : dropWhile p s = [] -> forallb p s = true.
Proof.
  induction s as [|x s IH]; simpl; [reflexivity|].
  destruct (p x); [exact IH | discriminate].
Qed.

Lemma forallb_unrev (q : ascii -> bool) s :
  forallb q (rev s) = true -> forallb q s = true.
Proof.
  intros H. rewrite <- (rev_involutive s). apply forallb_rev. exact H.
Qed.

Lemma strip_nil_iff s : strip s = [] <-> forallb isspace s = true.
Proof.
  split; [|apply strip_blank].
  unfold strip, lstrip, rstrip. intros H.
  apply dropWhile_all_inv in H. apply forallb_unrev in H.
  destruct (dropWhile isspace (rev s)) as [|x y] eqn:E.
  - apply forallb_unrev. apply dropWhile_all_inv. exact E.
  - apply dropWhile_first in E. simpl in H. rewrite E in H. discriminate.
Qed.

Lemma strip_head s c s' : strip s = c :: s' -> isspace c = false.
Proof. unfold strip, lstrip. apply dropWhile_first. Qed.

Lemma rstrip_cons_nonspace c l :
  isspace c = false -> exists l', rstrip (c :: l) = c :: l'.
Proof.
  intros Hc. unfold rstrip. simpl rev.
  destruct (dropWhile isspace (rev l)) as [|x y] eqn:E.
  - rewrite dropWhile_app_all by (apply dropWhile_all_inv; exact E).
    simpl. rewrite Hc. exists []. reflexivity.
  - rewrite dropWhile_app_stop by (rewrite E; discriminate).
    rewrite rev_app_distr. simpl. eauto.
Qed.

Lemma strip_cons_nonspace c l :
  isspace c = false -> exists l', strip (c :: l) = c :: l'.
Proof.
  intros Hc. destruct (rstrip_cons_nonspace c l Hc) as [l' Hl].
  exists l'. unfold strip, lstrip. rewrite Hl. simpl. rewrite Hc. reflexivity.
Qed.

(** Stripping twice changes nothing more. *)
Lemma strip_strip s : strip (strip s) = strip s.
Proof.
  destruct (strip s) as [|c z] eqn:E; [reflexivity|].
  pose proof (strip_head _ _ _ E) as Hc.
  unfold strip, lstrip, rstrip in E.
  set (y := dropWhile isspace (rev s)) in *.
  assert (Hy : dropWhile isspace y = y) by apply dropWhile_fixed.
  (* [c :: z] is what is left of [rev y] after its leading whitespace *)
  pose proof (take_drop_while isspace (rev y)) as Hsplit.
  rewrite E in Hsplit.
  apply (f_equal (@rev ascii)) in Hsplit.
  rewrite rev_involutive, rev_app_distr in Hsplit.
  assert (Hr : dropWhile isspace (rev (c :: z)) = rev (c :: z)).
  { destruct (rev (c :: z)) as [|x q] eqn:R.
    - reflexivity.
    - simpl in Hsplit. rewrite <- Hsplit in Hy. simpl in Hy.
      destruct (isspace x) eqn:Hx; [|simpl; rewrite Hx; reflexivity].
      exfalso.
      assert (L : length (dropWhile isspace
                            (q ++ rev (takeWhile isspace (rev y))))
                  <= length (q ++ rev (takeWhile isspace (rev y)))).
      { clear. generalize (q ++ rev (takeWhile isspace (rev y))).
        intros l. induction l as [|a l IH]; simpl; [lia|].
        destruct (isspace a); simpl; lia. }
      rewrite Hy in L. simpl in L. lia. }
  unfold strip, lstrip, rstrip. rewrite Hr, rev_involutive.
  simpl. rewrite Hc. reflexivity.
Qed.

Lemma split_head s : exists rest, split nl s = takeWhile dot s :: rest.
Proof.
  induction s as [|c s IH]; simpl; [eauto|].
  unfold dot at 1. destruct (Ascii.eqb c nl); simpl; [eauto|].
  destruct IH as [rest ->]. eauto.
Qed.

Lemma forallb_in (q : ascii -> bool) s c :
  forallb q s = true -> In c s -> q c = true.
Proof. intros H. revert c. apply forallb_forall. exact H. Qed.

Lemma strip_one_line g : forallb dot g = true -> ~ In nl (strip g).
Proof.
  intros H Hin. apply in_strip in Hin.
  pose proof (forallb_in _ _ _ H Hin). discriminate.
Qed.

Lemma strip_trimmed_line g : forallb dot g = true -> trimmed_line (strip g).
Proof.
  intros H. split; [apply strip_strip | apply strip_one_line; exact H].
Qed.

(** ** The merchant and the text fields *)

Lemma merchant_is_first_line_fields (t : text) :
  exists r,
    parse_receipt t = Ok r /\
    merchant r = (if forallb isspace t then None
                  else Some (strip (takeWhile dot (strip t)))).
Proof.
  destruct (parse_receipt_fields t) as (r & Hr & Hm & _).
  exists r. split; [exact Hr|]. rewrite Hm.
  destruct (forallb isspace t) eqn:B.
  - apply strip_nil_iff in B. rewrite B. reflexivity.
  - destruct (strip t) as [|c s'] eqn:E.
    { apply strip_nil_iff in E. congruence. }
    pose proof (strip_head _ _ _ E) as Hc.
    destruct (split_head (c :: s')) as [rest ->].
    simpl takeWhile. rewrite (nonspace_dot c Hc).
    destruct (strip_cons_nonspace c (takeWhile dot s') Hc) as [l' Hl].
    simpl. rewrite Hl. reflexivity.
Qed.

(** X1. The merchant is absent exactly on whitespace-only text; otherwise
    it is the first line of the stripped text, stripped, and is not empty:
    the loop over the lines never goes past the first one. *)
Theorem merchant_is_first_line (t : text) :
  exists r,
    parse_receipt t = Ok r /\
    merchant r = (if forallb isspace t then None
                  else Some (strip (takeWhile dot (strip t)))) /\
    merchant r <> Some [].
Proof.
  destruct (merchant_is_first_line_fields t) as (r & Hr & Hm).
  exists r. split; [exact Hr|]. split; [exact Hm|].
  rewrite Hm. destruct (forallb isspace t) eqn:B; [discriminate|].
  destruct (strip t) as [|c s'] eqn:E.
  { apply strip_nil_iff in E. congruence. }
  pose proof (strip_head _ _ _ E) as Hc.
  simpl takeWhile. rewrite (nonspace_dot c Hc).
  destruct (strip_cons_nonspace c (takeWhile dot s') Hc) as [l' ->].
  discriminate.
Qed.

Lemma text_field_trimmed w t v :
  text_field (map Lit w ++ rest_of_line) t = Some v -> trimmed_line v.
Proof.
  unfold text_field.
  destruct (search (map Lit w ++ rest_of_line) t) as [m|] eqn:E;
    [|discriminate].
  intros H. injection H as <-.
  apply ReFacts.search_inv in E. destruct E as (a & b & _ & E).
  rewrite ReFacts.match_lits_gen in E.
  destruct (strip_prefix w b); [|discriminate].
  destruct (line_marks _ _ E) as (y & b' & ->).
  apply ReFacts.greedy_inv in E. destruct E as (a0 & b0 & _ & _ & E).
  rewrite line_spec in E. destruct b0 as [|y0 b0]; [discriminate|].
  destruct (dot y0) eqn:D; [|discriminate].
  injection E as <- <-.
  rewrite line_group. apply strip_trimmed_line.
  simpl. rewrite D. apply takeWhile_all.
Qed.

Lemma item_capture s m :
  match_here item_re s = Some m -> forallb dot (group 1 m) = true.
Proof.
  unfold item_re. intros H.
  destruct s as [|x s]; [discriminate|].
  change (match_here ([Lit "-"; Star isspace; Mark; Cls dot; LazyStar dot;
                       Mark; Star isspace] ++ lits "..." ++ money) (x :: s))
    with (if Ascii.eqb x "-"
          then greedy_star isspace
                 (match_here (Mark :: Cls dot :: LazyStar dot :: Mark
                              :: Star isspace :: lits "..." ++ money)) s
          else None) in H.
  destruct (Ascii.eqb x "-"); [|discriminate].
  apply ReFacts.greedy_inv in H. destruct H as (a & b & _ & _ & H).
  change (match_here (Mark :: Cls dot :: LazyStar dot :: Mark
                      :: Star isspace :: lits "..." ++ money) b)
    with (option_map (cons b)
            (match b with
             | y :: b' =>
                 if dot y
                 then lazy_star dot
                        (match_here (Mark :: Star isspace
                                     :: lits "..." ++ money)) b'
                 else None
             | [] => None
             end)) in H.
  destruct b as [|y b']; [discriminate|].
  destruct (dot y) eqn:D; [|discriminate].
  destruct (lazy_star dot _ b') as [m'|] eqn:L; [|discriminate].
  simpl in H. injection H as <-.
  apply ReFacts.lazy_inv in L. destruct L as (a1 & b1 & -> & Ha1 & L).
  change (match_here (Mark :: Star isspace :: lits "..." ++ money) b1)
    with (option_map (cons b1)
            (match_here (Star isspace :: lits "..." ++ money) b1)) in L.
  destruct (match_here (Star isspace :: lits "..." ++ money) b1) as [m2|];
    [|discriminate].
  simpl in L. injection L as <-.
  change (group 1 (?u :: ?v :: m2)) with (between u v).
  change (y :: a1 ++ b1) with ((y :: a1) ++ b1).
  rewrite between_app. simpl. rewrite D. exact Ha1.
Qed.

Lemma parse_items_trimmed lines acc its :
  Forall (fun i => trimmed_line (description i)) acc ->
  parse_items lines acc = Ok its ->
  Forall (fun i => trimmed_line (description i)) its.
Proof.
  revert acc. induction lines as [|line rest IH]; intros acc Hacc; simpl.
  - intros H. injection H as <-. exact Hacc.
  - destruct (startswith _ (strip line)); [|apply IH; exact Hacc].
    destruct (search item_re line) as [m|] eqn:E; [|apply IH; exact Hacc].
    destruct (py_float (group 2 m)) as [q|]; [|discriminate]. simpl.
    apply IH. apply Forall_app. split; [exact Hacc|].
    constructor; [|constructor]. simpl.
    apply strip_trimmed_line.
    apply ReFacts.search_inv in E. destruct E as (a & b & _ & E).
    exact (item_capture _ _ E).
Qed.

(** X2. Every text the record holds (merchant, date, invoice number, each
    item description) is stripped and lies on one line. *)
Theorem text_fields_are_trimmed_lines (t : text) :
  exists r,
    parse_receipt t = Ok r /\
    (forall v, merchant r = Some v -> trimmed_line v) /\
    (forall v, date r = Some v -> trimmed_line v) /\
    (forall v, invoice_number r = Some v -> trimmed_line v) /\
    Forall (fun i => trimmed_line (description i)) (items r).
Proof.
  destruct (merchant_is_first_line_fields t) as (r & Hr & Hm).
  destruct (parse_receipt_fields t)
    as (r' & Hr' & _ & Hd & Hi & _ & _ & _ & Hit & _).
  rewrite Hr in Hr'. injection Hr' as <-.
  exists r. split; [exact Hr|].
  split; [|split; [|split]].
  - intros v Hv. rewrite Hm in Hv.
    destruct (forallb isspace t); [discriminate|]. injection Hv as <-.
    apply strip_trimmed_line, takeWhile_all.
  - intros v Hv. rewrite Hd in Hv. exact (text_field_trimmed _ _ _ Hv).
  - intros v Hv. rewrite Hi in Hv. exact (text_field_trimmed _ _ _ Hv).
  - exact (parse_items_trimmed _ [] _ (Forall_nil _) Hit).
Qed.

(** ** Labelled fields *)

Lemma startswith_app w s : startswith w (w ++ s) = true.
Proof. unfold startswith. rewrite strip_prefix_app. reflexivity. Qed.

Lemma find_occurrence w a b : find w (a ++ w ++ b) <> None.
Proof.
  induction a as [|x a IH]; simpl.
  - destruct (w ++ b) eqn:E; simpl; rewrite <- E, startswith_app;
      discriminate.
  - destruct (startswith w (x :: a ++ w ++ b)); [discriminate|].
    destruct (find w (a ++ w ++ b)); [discriminate | congruence].
Qed.

Lemma search_needs_label w r t :
  find w t = None -> search (map Lit w ++ r) t = None.
Proof.
  intros H. destruct (search (map Lit w ++ r) t) as [m|] eqn:E;
    [|reflexivity].
  apply search_has_label in E. destruct E as (a & b & ->).
  exfalso. exact (find_occurrence w a b H).
Qed.

(** X3. A field whose label does not occur in the text, in the label's
    exact spelling and case, is absent. *)
Theorem field_without_label_is_absent (t : text) :
  exists r,
    parse_receipt t = Ok r /\
    (find (txt "Date:") t = None -> date r = None) /\
    (find (txt "Invoice #:") t = None -> invoice_number r = None) /\
    (find (txt "TOTAL:") t = None -> total r = None) /\
    (find (txt "Subtotal:") t = None -> subtotal r = None) /\
    (find (txt "Tax") t = None -> tax r = None).
Proof.
  destruct (parse_receipt_fields t)
    as (r & Hr & _ & Hd & Hi & Ht & Hs & Hx & _).
  exists r. split; [exact Hr|]. rewrite Hd, Hi.
  split; [|split; [|split; [|split]]]; intros H.
  - apply text_field_none. apply (search_needs_label (txt "Date:")), H.
  - apply text_field_none.
    apply (search_needs_label (txt "Invoice #:")), H.
  - apply (money_field_none total_re t); [|exact Ht].
    apply (search_needs_label (txt "TOTAL:")), H.
  - apply (money_field_none subtotal_re t); [|exact Hs].
    apply (search_needs_label (txt "Subtotal:")), H.
  - apply (money_field_none tax_re t); [|exact Hx].
    apply (search_needs_label (txt "Tax")), H.
Qed.

Lemma text_field_at_label w pre ws c rest :
  find w (pre ++ w ++ ws ++ c :: rest) = Some (length pre) ->
  forallb isspace ws = true -> isspace c = false ->
  text_field (map Lit w ++ rest_of_line) (pre ++ w ++ ws ++ c :: rest)
  = Some (strip (c :: takeWhile dot rest)).
Proof.
  intros Hf Hw Hc. unfold text_field.
  rewrite (search_at_label w rest_of_line pre _
             [c :: rest; dropWhile dot rest; dropWhile dot rest] Hf).
  - rewrite line_group. reflexivity.
  - rewrite ReFacts.match_lits_gen, strip_prefix_app.
    apply rest_of_line_match; assumption.
Qed.

(** X4. When the first [Date:] label, or the first [Invoice #:] label, is
    followed by optional whitespace and then some other character, the
    field is the stripped text from that character to the end of its
    line. *)
Theorem labelled_text_after_label (pre ws rest : text) (c : ascii) :
  forallb isspace ws = true -> isspace c = false ->
  (let t := pre ++ txt "Date:" ++ ws ++ c :: rest in
   find (txt "Date:") t = Some (length pre) ->
   exists r, parse_receipt t = Ok r /\
             date r = Some (strip (c :: takeWhile dot rest))) /\
  (let t := pre ++ txt "Invoice #:" ++ ws ++ c :: rest in
   find (txt "Invoice #:") t = Some (length pre) ->
   exists r, parse_receipt t = Ok r /\
             invoice_number r = Some (strip (c :: takeWhile dot rest))).
Proof.
  intros Hw Hc. split; intros t Hf.
  - destruct (parse_receipt_fields t) as (r & Hr & _ & Hd & _).
    exists r. split; [exact Hr|]. rewrite Hd.
    apply (text_field_at_label (txt "Date:")); assumption.
  - destruct (parse_receipt_fields t) as (r & Hr & _ & _ & Hi & _).
    exists r. split; [exact Hr|]. rewrite Hi.
    apply (text_field_at_label (txt "Invoice #:")); assumption.
Qed.

Lemma labelled_text_after_label_witness :
  exists r,
    parse_receipt (unlines ["Shop"; "Invoice #:   INV-7 "; "TOTAL: $1.00"]%string)
    = Ok r /\
    invoice_number r = Some (txt "INV-7").
Proof.
  apply (proj2 (labelled_text_after_label
                  (unlines ["Shop"; ""]%string) (txt "   ")
                  (txt "NV-7 " ++ nl :: txt "TOTAL: $1.00") "I"
                  eq_refl eq_refl)).
  reflexivity.
Defined.

Lemma money_field_at_label w pre ws ip fp post :
  find w (pre ++ w ++ ws ++ "$"%char :: ip ++ "."%char :: fp ++ post)
  = Some (length pre) ->
  forallb isspace ws = true ->
  ip <> [] -> fp <> [] ->
  forallb isdigit ip = true -> forallb isdigit fp = true ->
  isdigit (hd nl post) = false ->
  money_field (map Lit w ++ money)
    (pre ++ w ++ ws ++ "$"%char :: ip ++ "."%char :: fp ++ post)
  = Ok (Some (binary64 (literal_value ip fp))).
Proof.
  intros Hf Hw Hip Hfp Dip Dfp Hpost. unfold money_field.
  rewrite (search_at_label w money pre _
             [ip ++ "."%char :: fp ++ post; post; post] Hf).
  - rewrite number_group, py_float_literal by assumption. reflexivity.
  - rewrite ReFacts.match_lits_gen, strip_prefix_app.
    apply money_match; assumption.
Qed.

(** X5. When the first [TOTAL:] label, or the first [Subtotal:] label, is
    followed by optional whitespace, a dollar sign and a literal
    [digits.digits] that ends there, the field is the float nearest to the
    number the literal denotes, whatever the number of its digits. *)
Theorem labelled_amount_after_label (pre ws ip fp post : text) :
  forallb isspace ws = true ->
  ip <> [] -> fp <> [] ->
  forallb isdigit ip = true -> forallb isdigit fp = true ->
  isdigit (hd nl post) = false ->
  (let t := pre ++ txt "TOTAL:" ++ ws
            ++ "$"%char :: ip ++ "."%char :: fp ++ post in
   find (txt "TOTAL:") t = Some (length pre) ->
   exists r, parse_receipt t = Ok r /\
             total r = Some (binary64 (literal_value ip fp))) /\
  (let t := pre ++ txt "Subtotal:" ++ ws
            ++ "$"%char :: ip ++ "."%char :: fp ++ post in
   find (txt "Subtotal:") t = Some (length pre) ->
   exists r, parse_receipt t = Ok r /\
             subtotal r = Some (binary64 (literal_value ip fp))).
Proof.
  intros Hw Hip Hfp Dip Dfp Hpost. split; intros t Hf.
  - destruct (parse_receipt_fields t) as (r & Hr & _ & _ & _ & Ht & _).
    exists r. split; [exact Hr|]. unfold t in Ht.
    rewrite (money_field_at_label (txt "TOTAL:")) in Ht by assumption.
    congruence.
  - destruct (parse_receipt_fields t) as (r & Hr & _ & _ & _ & _ & Hs & _).
    exists r. split; [exact Hr|]. unfold t in Hs.
    rewrite (money_field_at_label (txt "Subtotal:")) in Hs by assumption.
    congruence.
Qed.

Lemma labelled_amount_after_label_witness :
  exists r,
    parse_receipt (unlines ["Shop"; "Subtotal:$66.490"; "TOTAL: $71.81"]%string)
    = Ok r /\
    subtotal r = Some (binary64 66.490%Q).
Proof.
  apply (proj2 (labelled_amount_after_label
                  (unlines ["Shop"; ""]%string) [] (txt "66") (txt "490")
                  (nl :: txt "TOTAL: $71.81")
                  eq_refl ltac:(discriminate) ltac:(discriminate)
                  eq_refl eq_refl eq_refl)).
  reflexivity.
Defined.

Lemma lazy_skip {A} p (k : text -> option A) a b :
  forallb p a = true ->
  (forall a1 a2, a = a1 ++ a2 -> a2 <> [] -> k (a2 ++ b) = None) ->
  lazy_star p k (a ++ b) = lazy_star p k b.
Proof.
  induction a as [|x a IH]; intros Hp Hk; [reflexivity|].
  simpl in Hp. apply andb_true_iff in Hp. destruct Hp as [Hx Hp].
  change ((x :: a) ++ b) with (x :: a ++ b).
  rewrite ReFacts.lazy_cons.
  change (x :: a ++ b) with ((x :: a) ++ b).
  rewrite (Hk [] (x :: a) eq_refl) by discriminate.
  rewrite Hx. apply IH; [exact Hp|].
  intros a1 a2 -> Ha2. apply (Hk (x :: a1) a2); auto.
Qed.

Lemma lazy_hit {A} p (k : text -> option A) s m :
  k s = Some m -> lazy_star p k s = Some m.
Proof. intros H. destruct s; simpl; rewrite H; reflexivity. Qed.

Lemma tax_match mid ws ip fp post :
  forallb dot mid = true ->
  forallb (fun c => negb (Ascii.eqb c ":")) mid = true ->
  forallb isspace ws = true ->
  ip <> [] -> fp <> [] ->
  forallb isdigit ip = true -> forallb isdigit fp = true ->
  isdigit (hd nl post) = false ->
  match_here tax_re
    (txt "Tax" ++ mid ++ ":"%char :: ws
     ++ "$"%char :: ip ++ "."%char :: fp ++ post)
  = Some [ip ++ "."%char :: fp ++ post; post; post].
Proof.
  intros Hd Hc Hw Hip Hfp Dip Dfp Hpost.
  rewrite tax_at, strip_prefix_app.
  rewrite lazy_skip; [| exact Hd |].
  - apply lazy_hit. unfold colon_money.
    change (match_here (Lit ":" :: money) (":"%char :: ?x))
      with (match_here money x).
    apply money_match; assumption.
  - intros a1 a2 -> Ha2. destruct a2 as [|y a2]; [congruence|].
    rewrite forallb_app in Hc. apply andb_true_iff in Hc.
    destruct Hc as [_ Hc]. simpl in Hc.
    apply andb_true_iff in Hc. destruct Hc as [Hy _].
    unfold colon_money. simpl.
    destruct (Ascii.eqb y ":"); [discriminate | reflexivity].
Qed.

(** X6. When the first [Tax] in the text is followed on its line by any
    annotation without a colon, then a colon, optional whitespace, a dollar
    sign and a literal [digits.digits] that ends there, the tax is the
    float nearest to the number the literal denotes. *)
Theorem tax_is_labelled_value (pre mid ws ip fp post : text) :
  let t := pre ++ txt "Tax" ++ mid ++ ":"%char :: ws
           ++ "$"%char :: ip ++ "."%char :: fp ++ post in
  find (txt "Tax") t = Some (length pre) ->
  forallb dot mid = true ->
  forallb (fun c => negb (Ascii.eqb c ":")) mid = true ->
  forallb isspace ws = true ->
  ip <> [] -> fp <> [] ->
  forallb isdigit ip = true -> forallb isdigit fp = true ->
  isdigit (hd nl post) = false ->
  exists r, parse_receipt t = Ok r /\
            tax r = Some (binary64 (literal_value ip fp)).
Proof.
  intros t Hf Hd Hc Hw Hip Hfp Dip Dfp Hpost.
  destruct (parse_receipt_fields t) as (r & Hr & _ & _ & _ & _ & _ & Hx & _).
  exists r. split; [exact Hr|].
  unfold money_field in Hx.
  assert (Hs : search tax_re t
               = Some [ip ++ "."%char :: fp ++ post; post; post]).
  { unfold t. apply ReFacts.search_first.
    - intros a b Hab Hb. unfold tax_re, lits. apply match_needs_label.
      exact (find_first _ _ _ Hf a b Hab Hb).
    - apply tax_match; assumption. }
  rewrite Hs, number_group, py_float_literal in Hx by assumption.
  simpl in Hx. congruence.
Qed.

Lemma tax_is_labelled_value_witness :
  exists r,
    parse_receipt (unlines ["Shop"; "Tax (8%): $5.32"; "TOTAL: $71.81"]%string)
    = Ok r /\
    tax r = Some (binary64 5.32%Q).
Proof.
  apply (tax_is_labelled_value
           (unlines ["Shop"; ""]%string) (txt " (8%)") (txt " ")
           (txt "5") (txt "32") (nl :: txt "TOTAL: $71.81")
           eq_refl eq_refl eq_refl eq_refl
           ltac:(discriminate) ltac:(discriminate)
           eq_refl eq_refl eq_refl).
Defined.

(** ** Line items *)

Lemma last_any_default (l : text) x y : l <> [] -> last l x = last l y.
Proof.
  induction l as [|a l IH]; [congruence|]. intros _.
  destruct l as [|b l]; [reflexivity|].
  change (last (b :: l) x = last (b :: l) y). apply IH. discriminate.
Qed.

Lemma last_suffix (a1 a2 : text) x y :
  a2 <> [] -> last (a1 ++ a2) x = last a2 y.
Proof.
  intros H. induction a1 as [|a a1 IH]; simpl app.
  - apply last_any_default. exact H.
  - destruct (a1 ++ a2) as [|b l] eqn:E.
    + destruct a1, a2; simpl in E; congruence.
    + exact IH.
Qed.

Lemma last_cons (x : ascii) d c : last (x :: d) c = last d x.
Proof.
  destruct d as [|y d]; [reflexivity|].
  change (last (x :: y :: d) c) with (last (y :: d) c).
  apply last_any_default. discriminate.
Qed.

Lemma rev_head_last (c : ascii) d : exists q, rev (c :: d) = last d c :: q.
Proof.
  revert c. induction d as [|x d IH]; intros c; [exists []; reflexivity|].
  destruct (IH x) as [q Hq].
  change (rev (c :: x :: d)) with (rev (x :: d) ++ [c]).
  rewrite Hq, last_cons. exists (q ++ [c]). reflexivity.
Qed.

Lemma strip_fixed c d :
  isspace c = false -> isspace (last d c) = false ->
  strip (c :: d) = c :: d.
Proof.
  intros Hc Hl. unfold strip, lstrip, rstrip.
  destruct (rev_head_last c d) as [q Hq].
  rewrite Hq. simpl dropWhile. rewrite Hl, <- Hq, rev_involutive.
  simpl. rewrite Hc. reflexivity.
Qed.

(** Whitespace skipped from inside a text that ends with another character
    stops inside that text. *)
Lemma ws_prefix_inside (a d2 tl b : text) :
  a ++ b = d2 ++ tl -> forallb isspace a = true ->
  d2 <> [] -> isspace (last d2 nl) = false ->
  exists y b', b = y :: b' /\ In y d2.
Proof.
  revert d2. induction a as [|x a IH]; intros d2 Hab Ha Hd Hl.
  - destruct d2 as [|y d2]; [congruence|].
    simpl in Hab. exists y, (d2 ++ tl). split; [exact Hab | left; auto].
  - destruct d2 as [|z d2]; [congruence|].
    simpl in Hab. injection Hab as -> Hab.
    simpl in Ha. apply andb_true_iff in Ha. destruct Ha as [Hz Ha].
    destruct d2 as [|z' d2].
    + simpl in Hl. congruence.
    + destruct (IH (z' :: d2) Hab Ha) as (y & b' & -> & Hin);
        [discriminate | exact Hl |].
      exists y, b'. split; [reflexivity | right; exact Hin].
Qed.

Lemma item_tail_not_inside d2 tl :
  d2 <> [] -> isspace (last d2 nl) = false ->
  forallb (fun c => negb (Ascii.eqb c ".")) d2 = true ->
  match_here item_tail (d2 ++ tl) = None.
Proof.
  intros Hd Hl Hdots. unfold item_tail.
  change (match_here (Mark :: Star isspace :: lits "..." ++ money) (d2 ++ tl))
    with (option_map (cons (d2 ++ tl))
            (greedy_star isspace (match_here (lits "..." ++ money))
               (d2 ++ tl))).
  rewrite greedy_none_class; [reflexivity|].
  intros a b Hab Ha.
  destruct (ws_prefix_inside a d2 tl b (eq_sym Hab) Ha Hd Hl)
    as (y & b' & -> & Hin).
  pose proof (forallb_in _ _ _ Hdots Hin) as Hy. simpl in Hy.
  simpl. destruct (Ascii.eqb y "."); [discriminate | reflexivity].
Qed.

Lemma item_tail_match ws2 ws3 ip fp rest :
  forallb isspace ws2 = true -> forallb isspace ws3 = true ->
  ip <> [] -> fp <> [] ->
  forallb isdigit ip = true -> forallb isdigit fp = true ->
  isdigit (hd nl rest) = false ->
  let tl := ws2 ++ txt "..." ++ ws3
            ++ "$"%char :: ip ++ "."%char :: fp ++ rest in
  match_here item_tail tl
  = Some [tl; ip ++ "."%char :: fp ++ rest; rest; rest].
Proof.
  intros H2 H3 Hip Hfp Dip Dfp Hrest tl. unfold item_tail.
  change (match_here (Mark :: Star isspace :: lits "..." ++ money) tl)
    with (option_map (cons tl)
            (greedy_star isspace (match_here (lits "..." ++ money)) tl)).
  erewrite ReFacts.greedy_longest; [reflexivity|].
  unfold tl. rewrite dropWhile_app_all by exact H2.
  change (dropWhile isspace (txt "..." ++ ?x)) with (txt "..." ++ x).
  unfold lits. rewrite ReFacts.match_lits_gen, strip_prefix_app.
  apply money_match; assumption.
Qed.

Lemma item_line_match ws1 c d ws2 ws3 ip fp rest :
  forallb isspace ws1 = true ->
  isspace c = false -> isspace (last d c) = false ->
  forallb dot d = true ->
  forallb (fun c => negb (Ascii.eqb c ".")) d = true ->
  forallb isspace ws2 = true -> forallb isspace ws3 = true ->
  ip <> [] -> fp <> [] ->
  forallb isdigit ip = true -> forallb isdigit fp = true ->
  isdigit (hd nl rest) = false ->
  let tl := ws2 ++ txt "..." ++ ws3
            ++ "$"%char :: ip ++ "."%char :: fp ++ rest in
  match_here item_re ("-"%char :: ws1 ++ c :: d ++ tl)
  = Some [c :: d ++ tl; tl; ip ++ "."%char :: fp ++ rest; rest; rest].
Proof.
  intros H1 Hc Hl Hd Hdots H2 H3 Hip Hfp Dip Dfp Hrest tl.
  change (match_here item_re ("-"%char :: ws1 ++ c :: d ++ tl))
    with (greedy_star isspace
            (match_here (Mark :: Cls dot :: LazyStar dot :: item_tail))
            (ws1 ++ c :: d ++ tl)).
  apply ReFacts.greedy_longest.
  rewrite dropWhile_app_all by exact H1.
  simpl dropWhile. rewrite Hc.
  change (match_here (Mark :: Cls dot :: LazyStar dot :: item_tail)
            (c :: d ++ tl))
    with (option_map (cons (c :: d ++ tl))
            (if dot c then lazy_star dot (match_here item_tail) (d ++ tl)
             else None)).
  rewrite (nonspace_dot c Hc).
  rewrite lazy_skip; [| exact Hd |].
  - rewrite (lazy_hit dot (match_here item_tail) tl
               [tl; ip ++ "."%char :: fp ++ rest; rest; rest]);
      [reflexivity|].
    apply item_tail_match; assumption.
  - intros a1 a2 -> Ha2. apply item_tail_not_inside.
    + exact Ha2.
    + rewrite <- (last_suffix a1 a2 c nl Ha2). exact Hl.
    + rewrite forallb_app in Hdots. apply andb_true_iff in Hdots. tauto.
Qed.

(** X7. A line made of optional whitespace, a dash, a description that
    holds no dot, three dots, a dollar sign and a literal [digits.digits],
    with optional whitespace in between, adds one item: the description as
    written and the float nearest to the number the literal denotes. *)
Theorem item_line_is_captured
    (lead ws1 d ws2 ws3 ip fp rest : text) (c : ascii)
    (more : list text) (acc : list Item) :
  let line := lead ++ "-"%char :: ws1 ++ c :: d ++ ws2 ++ txt "..." ++ ws3
              ++ "$"%char :: ip ++ "."%char :: fp ++ rest in
  forallb isspace lead = true -> forallb isspace ws1 = true ->
  isspace c = false -> isspace (last d c) = false ->
  forallb dot d = true ->
  forallb (fun c => negb (Ascii.eqb c ".")) d = true ->
  forallb isspace ws2 = true -> forallb isspace ws3 = true ->
  ip <> [] -> fp <> [] ->
  forallb isdigit ip = true -> forallb isdigit fp = true ->
  isdigit (hd nl rest) = false ->
  parse_items (line :: more) acc
  = parse_items more
      (acc ++ [ {| description := c :: d;
                   amount := binary64 (literal_value ip fp) |} ]).
Proof.
  intros line H0 H1 Hc Hl Hd Hdots H2 H3 Hip Hfp Dip Dfp Hrest.
  set (tl := ws2 ++ txt "..." ++ ws3
             ++ "$"%char :: ip ++ "."%char :: fp ++ rest) in *.
  assert (Hb : startswith (txt "-") (strip line) = true).
  { unfold line. rewrite strip_after_ws by (auto; reflexivity).
    destruct (strip_cons_nonspace "-" (ws1 ++ c :: d ++ tl) eq_refl)
      as [l' ->]. reflexivity. }
  assert (Hs : search item_re line
               = Some [c :: d ++ tl; tl; ip ++ "."%char :: fp ++ rest;
                       rest; rest]).
  { unfold line. apply ReFacts.search_first.
    - intros a b -> Hbne. destruct b as [|y b]; [congruence|].
      rewrite forallb_app in H0. apply andb_true_iff in H0.
      destruct H0 as [_ H0]. simpl in H0.
      apply andb_true_iff in H0. destruct H0 as [Hy _].
      simpl. destruct (Ascii.eqb_spec y "-"%char); [|reflexivity].
      subst y. discriminate.
    - apply item_line_match; assumption. }
  change (parse_items (line :: more) acc)
    with (if startswith (txt "-") (strip line)
          then match search item_re line with
               | Some m =>
                   amount <- py_float (group 2 m) ;;
                   parse_items more
                     (acc ++ [Build_Item (strip (group 1 m)) amount])
               | None => parse_items more acc
               end
          else parse_items more acc).
  rewrite Hb, Hs.
  change (group 1 [?a; ?b; ?x; ?y; ?z]) with (between a b).
  change (group 2 [?a; ?b; ?x; ?y; ?z]) with (between x y).
  change (c :: d ++ tl) with ((c :: d) ++ tl).
  rewrite between_app.
  replace (ip ++ "."%char :: fp ++ rest)
    with ((ip ++ "."%char :: fp) ++ rest)
    by (rewrite <- app_assoc; reflexivity).
  rewrite between_app, py_float_literal by assumption.
  rewrite strip_fixed by assumption. reflexivity.
Qed.

Lemma item_line_is_captured_witness :
  parse_items [txt "  - Pens (Blue, pack of 12) ... $8.50"] []
  = Ok [ {| description := txt "Pens (Blue, pack of 12)";
            amount := binary64 8.50%Q |} ].
Proof.
  apply (item_line_is_captured
           (txt "  ") (txt " ") (txt "ens (Blue, pack of 12)") (txt " ")
           (txt " ") (txt "8") (txt "50") [] "P" [] []
           eq_refl eq_refl eq_refl eq_refl eq_refl eq_refl eq_refl eq_refl
           ltac:(discriminate) ltac:(discriminate) eq_refl eq_refl eq_refl).
Defined.

Lemma match_app_suffix r1 r2 s m :
  match_here (r1 ++ r2) s = Some m ->
  exists a s' m2, s = a ++ s' /\ match_here r2 s' = Some m2.
Proof.
  revert s m. induction r1 as [|x r1 IH]; intros s m H.
  - exists [], s, m. auto.
  - destruct x as [c|p|p|p|w|]; simpl in H.
    + destruct s as [|y s]; [discriminate|].
      destruct (Ascii.eqb y c); [|discriminate].
      destruct (IH _ _ H) as (a & s' & m2 & -> & H').
      exists (y :: a), s', m2. auto.
    + destruct s as [|y s]; [discriminate|].
      destruct (p y); [|discriminate].
      destruct (IH _ _ H) as (a & s' & m2 & -> & H').
      exists (y :: a), s', m2. auto.
    + apply ReFacts.greedy_inv in H. destruct H as (a & b & -> & _ & Hb).
      destruct (IH _ _ Hb) as (a' & s' & m2 & -> & H').
      exists (a ++ a'), s', m2. rewrite <- app_assoc. auto.
    + apply ReFacts.lazy_inv in H. destruct H as (a & b & -> & _ & Hb).
      destruct (IH _ _ Hb) as (a' & s' & m2 & -> & H').
      exists (a ++ a'), s', m2. rewrite <- app_assoc. auto.
    + destruct (strip_prefix w s) as [s0|] eqn:E; [|eauto].
      destruct (match_here (r1 ++ r2) s0) eqn:E'; [|eauto].
      apply strip_prefix_inv in E. subst s.
      destruct (IH _ _ E') as (a' & s' & m2 & -> & H').
      exists (w ++ a'), s', m2. rewrite <- app_assoc. auto.
    + destruct (match_here (r1 ++ r2) s) eqn:E; [|discriminate]. eauto.
Qed.

Lemma item_needs_dots line :
  find (txt "...") line = None -> search item_re line = None.
Proof.
  intros H. destruct (search item_re line) as [m|] eqn:E; [|reflexivity].
  exfalso. apply ReFacts.search_inv in E. destruct E as (a0 & b & -> & E).
  change item_re
    with ([Lit "-"; Star isspace; Mark; Cls dot; LazyStar dot; Mark;
           Star isspace] ++ (map Lit (txt "...") ++ money)) in E.
  apply match_app_suffix in E. destruct E as (a & s' & m2 & -> & E).
  rewrite ReFacts.match_lits_gen in E.
  destruct (strip_prefix (txt "...") s') as [s''|] eqn:P; [|discriminate].
  apply strip_prefix_inv in P. subst s'.
  rewrite app_assoc in H. exact (find_occurrence _ _ _ H).
Qed.

Lemma parse_items_cons line more acc :
  parse_items (line :: more) acc =
  if is_bullet line then
    match search item_re line with
    | Some m =>
        amount <- py_float (group 2 m) ;;
        parse_items more (acc ++ [Build_Item (strip (group 1 m)) amount])
    | None => parse_items more acc
    end
  else parse_items more acc.
Proof. reflexivity. Qed.

(** X8. A line that holds no three consecutive dots, or that does not
    start with a dash once stripped, adds no item and raises nothing: the
    lines after it are read as if it were not there. *)
Theorem line_without_separator_is_skipped
    (line : text) (more : list text) (acc : list Item) :
  find (txt "...") line = None \/ is_bullet line = false ->
  parse_items (line :: more) acc = parse_items more acc.
Proof.
  intros [H|H]; rewrite parse_items_cons.
  - rewrite (item_needs_dots line H).
    destruct (is_bullet line); reflexivity.
  - rewrite H. reflexivity.
Qed.

Lemma line_without_separator_is_skipped_witness :
  parse_items [txt "- Stapler $12.99"; txt "- Pens ... $8.50"] []
  = parse_items [txt "- Pens ... $8.50"] [].
Proof.
  apply (line_without_separator_is_skipped
           (txt "- Stapler $12.99") [txt "- Pens ... $8.50"] []).
  left. reflexivity.
Defined.

Lemma parse_items_acc lines acc :
  exists its, parse_items lines [] = Ok its /\
              parse_items lines acc = Ok (acc ++ its).
Proof.
  revert acc. induction lines as [|line rest IH]; intros acc.
  - exists []. rewrite app_nil_r. auto.
  - simpl. destruct (startswith _ (strip line)); [|apply IH].
    destruct (search item_re line) as [m|] eqn:E; [|apply IH].
    rewrite item_re_shape in E.
    apply (captured_number _ 1) in E; [|reflexivity].
    destruct E as (ip & fp & Hip & Hfp & Dip & Dfp & ->).
    rewrite py_float_literal by assumption. simpl.
    set (i := {| description := strip (group 1 m);
                 amount := binary64 (literal_value ip fp) |}).
    destruct (IH [i]) as (its & H0 & H1).
    destruct (IH (acc ++ [i])) as (its' & H0' & H1').
    rewrite H0 in H0'. injection H0' as <-.
    exists (i :: its). split; [exact H1|].
    rewrite H1', <- app_assoc. reflexivity.
Qed.

(** X9. Items come out in the order of their lines and each line is read
    on its own: the items of two runs of lines put end to end are the items
    of the first run followed by the items of the second. *)
Theorem items_of_concatenated_lines (l1 l2 : list text) :
  exists i1 i2,
    parse_items l1 [] = Ok i1 /\
    parse_items l2 [] = Ok i2 /\
    parse_items (l1 ++ l2) [] = Ok (i1 ++ i2).
Proof.
  destruct (parse_items_acc l2 []) as (i2 & H2 & _).
  assert (G : forall acc, exists i1,
             parse_items l1 [] = Ok i1 /\
             parse_items (l1 ++ l2) acc = Ok (acc ++ i1 ++ i2)).
  { induction l1 as [|line rest IH]; intros acc.
    - exists []. split; [reflexivity|].
      destruct (parse_items_acc l2 acc) as (i2' & H2' & Hacc).
      rewrite H2 in H2'. injection H2' as <-. exact Hacc.
    - simpl. destruct (startswith _ (strip line)); [|apply IH].
      destruct (search item_re line) as [m|] eqn:E; [|apply IH].
      rewrite item_re_shape in E.
      apply (captured_number _ 1) in E; [|reflexivity].
      destruct E as (ip & fp & Hip & Hfp & Dip & Dfp & ->).
      rewrite py_float_literal by assumption. simpl.
      set (i := {| description := strip (group 1 m);
                   amount := binary64 (literal_value ip fp) |}).
      destruct (IH (acc ++ [i])) as (i1 & H1 & Hc).
      destruct (parse_items_acc rest [i]) as (i1' & H1' & Hi).
      rewrite H1 in H1'. injection H1' as <-.
      exists (i :: i1). split; [exact Hi|].
      rewrite Hc, <- app_assoc. reflexivity. }
  destruct (G []) as (i1 & H1 & Hc).
  exists i1, i2. auto.
Qed.

Lemma parse_items_count lines acc its :
  parse_items lines acc = Ok its ->
  length its <= length acc + length (filter is_bullet lines).
Proof.
  revert acc. induction lines as [|line rest IH]; intros acc.
  - simpl. intros H. injection H as <-. lia.
  - rewrite parse_items_cons. cbn [filter].
    destruct (is_bullet line); simpl.
    + destruct (search item_re line) as [m|].
      * destruct (py_float (group 2 m)); [|discriminate]. simpl.
        intros H. apply IH in H. rewrite length_app in H. simpl in H. lia.
      * intros H. apply IH in H. lia.
    + apply IH.
Qed.

(** X10. There are never more items than lines that start with a dash
    once stripped: a line yields at most one item, whatever it holds. *)
Theorem items_bounded_by_bullet_lines (t : text) :
  exists r,
    parse_receipt t = Ok r /\
    length (items r) <= length (filter is_bullet (split nl (strip t))).
Proof.
  destruct (parse_receipt_fields t)
    as (r & Hr & _ & _ & _ & _ & _ & _ & Hi & _).
  exists r. split; [exact Hr|].
  apply parse_items_count in Hi. simpl in Hi. exact Hi.
Qed.

(** ** The model extractor *)

(** X11. The model extractor returns a result exactly when a non-empty
    key is configured, the request succeeds, the reply (stripped and
    unfenced) parses, and the parsed value is an object; the result is
    then that object tagged [llm] with the reply's token counts. A missing
    or empty key raises [ValueError] whatever the other collaborators are,
    and an error of the request or of the JSON parser is raised
    unchanged. *)
Theorem model_extractor_outcomes
    (key : option string) (mc : text -> result llm_parser.Message)
    (jl : text -> result json) (t : text) :
  (forall d u,
     llm_parser.parse_receipt key mc jl t = Ok (d, u) <->
     exists k msg m,
       key = Some k /\ k <> EmptyString /\
       mc (llm_parser.prompt t) = Ok msg /\
       jl (llm_parser.json_input (llm_parser.content_text msg))
       = Ok (JObj m) /\
       d = set_item "parser_used" (JStr (txt "llm")) m /\
       u = usage_of msg) /\
  (key = None \/ key = Some EmptyString ->
   llm_parser.parse_receipt key mc jl t
   = Raise (Exn ValueError "ANTHROPIC_API_KEY not found!")) /\
  (forall k e,
     key = Some k -> k <> EmptyString ->
     mc (llm_parser.prompt t) = Raise e ->
     llm_parser.parse_receipt key mc jl t = Raise e) /\
  (forall k msg e,
     key = Some k -> k <> EmptyString ->
     mc (llm_parser.prompt t) = Ok msg ->
     jl (llm_parser.json_input (llm_parser.content_text msg)) = Raise e ->
     llm_parser.parse_receipt key mc jl t = Raise e).
Proof.
  split; [|split; [|split]].
  - intros d u. split.
    + unfold llm_parser.parse_receipt.
      destruct key as [[|c k]|]; try discriminate.
      destruct (mc (llm_parser.prompt t)) as [msg|] eqn:Hm; [|discriminate].
      simpl.
      destruct (jl (llm_parser.json_input (llm_parser.content_text msg)))
        as [v|] eqn:Hj; [|discriminate].
      simpl. destruct v; try discriminate. simpl.
      intros H. injection H as <- <-.
      exists (String c k), msg, m. repeat split; auto. discriminate.
    + intros (k & msg & m & -> & Hk & Hm & Hj & -> & ->).
      rewrite (llm_parse_reads_json_input k mc jl t msg Hk Hm), Hj.
      reflexivity.
  - intros [-> | ->]; reflexivity.
  - intros k e -> Hk He. unfold llm_parser.parse_receipt.
    destruct k; [congruence|]. rewrite He. reflexivity.
  - intros k msg e -> Hk Hm He.
    rewrite (llm_parse_reads_json_input k mc jl t msg Hk Hm), He.
    reflexivity.
Qed.

Lemma lookup_set_item_same k v d : lookup k (set_item k v d) = Some v.
Proof.
  induction d as [|[k' v'] d IH]; simpl.
  - rewrite String.eqb_refl. reflexivity.
  - destruct (String.eqb k k') eqn:E; simpl.
    + rewrite String.eqb_refl. reflexivity.
    + rewrite E. exact IH.
Qed.

Lemma lookup_set_item_other k k0 v d :
  k0 <> k -> lookup k0 (set_item k v d) = lookup k0 d.
Proof.
  intros Hne. induction d as [|[k' v'] d IH]; simpl.
  - destruct (String.eqb_spec k0 k); [congruence | reflexivity].
  - destruct (String.eqb_spec k k'); simpl.
    + subst k'. destruct (String.eqb_spec k0 k); [congruence | reflexivity].
    + destruct (String.eqb k0 k'); [reflexivity | exact IH].
Qed.

Lemma set_item_keys k v d :
  map fst (set_item k v d)
  = if existsb (String.eqb k) (map fst d) then map fst d
    else map fst d ++ [k].
Proof.
  induction d as [|[k' v'] d IH]; simpl; [reflexivity|].
  destruct (String.eqb_spec k k'); simpl.
  - subst. reflexivity.
  - rewrite IH. destruct (existsb (String.eqb k) (map fst d)); reflexivity.
Qed.

Lemma set_item_nodup k v d :
  NoDup (map fst d) -> NoDup (map fst (set_item k v d)).
Proof.
  intros H. rewrite set_item_keys.
  destruct (existsb (String.eqb k) (map fst d)) eqn:E; [exact H|].
  apply NoDup_app; [exact H | repeat constructor; intros [] |].
  intros x Hx [Hk|[]]. subst x.
  assert (existsb (String.eqb k) (map fst d) = true).
  { apply existsb_exists. exists k. split; [exact Hx|].
    apply String.eqb_refl. }
  congruence.
Qed.

(** X12. Tagging the parsed object: whatever [parser_used] the model may
    have put in its reply is replaced by [llm], every other key keeps its
    value, and distinct keys stay distinct. *)
Theorem model_record_is_tagged
    (key : option string) (mc : text -> result llm_parser.Message)
    (jl : text -> result json) (t : text) (d : dict) (u : Usage) :
  llm_parser.parse_receipt key mc jl t = Ok (d, u) ->
  get "parser_used" d = JStr (txt "llm") /\
  exists msg m,
    mc (llm_parser.prompt t) = Ok msg /\
    jl (llm_parser.json_input (llm_parser.content_text msg))
    = Ok (JObj m) /\
    (forall k, k <> "parser_used"%string -> lookup k d = lookup k m) /\
    (NoDup (map fst m) -> NoDup (map fst d)).
Proof.
  intros H.
  unfold llm_parser.parse_receipt in H.
  destruct key as [[|c k]|]; try discriminate.
  destruct (mc (llm_parser.prompt t)) as [msg|] eqn:Hm; [|discriminate].
  simpl in H.
  destruct (jl (llm_parser.json_input (llm_parser.content_text msg)))
    as [v|] eqn:Hj; [|discriminate].
  simpl in H. destruct v; try discriminate. simpl in H.
  injection H as <- <-. split.
  - unfold get, get_default. rewrite lookup_set_item_same. reflexivity.
  - exists msg, m. split; [reflexivity|]. split; [exact Hj|]. split.
    + intros k0 Hk. apply lookup_set_item_other. exact Hk.
    + apply set_item_nodup.
Qed.

Lemma model_record_is_tagged_witness :
  exists d u,
    llm_parser.parse_receipt (Some "sk-test"%string)
      (fun _ => Ok {| llm_parser.content_text := txt "{}";
                      llm_parser.usage_input_tokens := 120;
                      llm_parser.usage_output_tokens := 45 |})
      (fun _ => Ok (JObj [("parser_used"%string, JStr (txt "regex"));
                          ("total"%string, JNum 5)]))
      (txt "Shop") = Ok (d, u) /\
    get "parser_used" d = JStr (txt "llm").
Proof.
  eexists. eexists. split; [reflexivity|].
  apply (proj1 (model_record_is_tagged
                  (Some "sk-test"%string)
                  (fun _ => Ok {| llm_parser.content_text := txt "{}";
                                  llm_parser.usage_input_tokens := 120;
                                  llm_parser.usage_output_tokens := 45 |})
                  (fun _ => Ok (JObj [("parser_used"%string,
                                       JStr (txt "regex"));
                                      ("total"%string, JNum 5)]))
                  (txt "Shop") _ _ eq_refl)).
Defined.

(** X13. A reply with no line break in it is never unfenced, even when it
    starts and ends with a fence marker: it is handed to [json.loads] as it
    stands, stripped. *)
Theorem one_line_reply_stays_as_is (reply : text) :
  ~ In nl (strip reply) ->
  llm_parser.json_input reply = strip reply.
Proof.
  intros H. unfold llm_parser.json_input, llm_parser.unfence.
  destruct (startswith _ (strip reply)); [|reflexivity].
  destruct (search llm_parser.fence_re (strip reply)) as [m|] eqn:E;
    [|reflexivity].
  exfalso. apply H. apply (search_lit_in nl _ _ _ E).
  vm_compute. tauto.
Qed.

Lemma one_line_reply_stays_as_is_witness :
  llm_parser.json_input (txt " ```json {} ``` ") = txt "```json {} ```".
Proof.
  apply (one_line_reply_stays_as_is (txt " ```json {} ``` ")).
  vm_compute. intuition discriminate.
Defined.

Lemma fence_capture s m :
  search llm_parser.fence_re s = Some m ->
  exists a b, s = a ++ group 1 m ++ b.
Proof.
  intros H. apply ReFacts.search_inv in H. destruct H as (a0 & s0 & -> & H).
  change llm_parser.fence_re
    with ((lits "```" ++ [Opt (txt "json"); Star isspace; Lit nl])
          ++ (Mark :: LazyStar anychar :: Mark :: Lit nl :: lits "```"))
    in H.
  apply match_app_split in H.
  destruct H as (a & s' & m1 & m2 & -> & -> & Hl & H).
  destruct m1; [|discriminate]. clear Hl.
  change (match_here (Mark :: LazyStar anychar :: Mark :: Lit nl
                      :: lits "```") s')
    with (option_map (cons s')
            (lazy_star anychar
               (match_here (Mark :: Lit nl :: lits "```")) s')) in H.
  destruct (lazy_star anychar _ s') as [m3|] eqn:L; [|discriminate].
  simpl in H. injection H as <-.
  apply ReFacts.lazy_inv in L. destruct L as (a1 & b1 & -> & _ & L).
  change (match_here (Mark :: Lit nl :: lits "```") b1)
    with (option_map (cons b1) (match_here (Lit nl :: lits "```") b1)) in L.
  destruct (match_here (Lit nl :: lits "```") b1) as [m4|]; [|discriminate].
  simpl in L. injection L as <-.
  exists (a0 ++ a), b1.
  change (group 1 ([] ++ (a1 ++ b1) :: b1 :: m4)) with (between (a1 ++ b1) b1).
  rewrite between_app, <- !app_assoc. reflexivity.
Qed.

(** X14. What is handed to [json.loads] is always one contiguous part of
    the stripped reply: unfencing removes text around the body and never
    rewrites the body. *)
Theorem parsed_text_is_part_of_reply (reply : text) :
  exists a b, strip reply = a ++ llm_parser.json_input reply ++ b.
Proof.
  unfold llm_parser.json_input, llm_parser.unfence.
  destruct (startswith _ (strip reply)).
  - destruct (search llm_parser.fence_re (strip reply)) as [m|] eqn:E.
    + exact (fence_capture _ _ E).
    + exists [], []. rewrite app_nil_r. reflexivity.
  - exists [], []. rewrite app_nil_r. reflexivity.
Qed.

(** ** The endpoints, with the pattern extractor in place *)

Lemma is_blank_iff t : api.is_blank t = true <-> forallb isspace t = true.
Proof.
  unfold api.is_blank. rewrite <- strip_nil_iff.
  destruct (strip t); split; congruence.
Qed.

Lemma not_blank t : forallb isspace t = false -> api.is_blank t = false.
Proof.
  intros H. destruct (api.is_blank t) eqn:E; [|reflexivity].
  apply is_blank_iff in E. congruence.
Qed.

(** X15. A text made of whitespace only, the empty text included, is
    refused with status 400 by [/parse] in every mode and by [/compare],
    whatever the parsers would have done with it. *)
Theorem blank_text_is_rejected
    (llm_parse : text -> result (dict * Usage))
    (regex_parse : text -> result Receipt)
    (t : text) (p : api.parser_choice) :
  forallb isspace t = true ->
  api.parse_receipt llm_parse regex_parse
    {| api.receipt_text := t; api.parser := p |}
  = api.HTTPException 400 "receipt_text cannot be empty" /\
  api.compare_parsers llm_parse regex_parse
    {| api.receipt_text := t; api.parser := p |}
  = api.HTTPException 400 "receipt_text cannot be empty".
Proof.
  intros H. apply is_blank_iff in H.
  unfold api.parse_receipt, api.compare_parsers. simpl. rewrite H.
  split; reflexivity.
Qed.

Lemma blank_text_is_rejected_witness :
  api.parse_receipt (fun _ => Raise (Exn APIError "down")) parse_receipt
    {| api.receipt_text := unlines [" "; ""; "  "]%string;
       api.parser := api.regex |}
  = api.HTTPException 400 "receipt_text cannot be empty".
Proof.
  apply (proj1 (blank_text_is_rejected
                  (fun _ => Raise (Exn APIError "down")) parse_receipt
                  (unlines [" "; ""; "  "]%string) api.regex eq_refl)).
Defined.

(** X16. With the pattern extractor in place, [/parse] in auto mode
    answers every non-blank text with [success]: the model's record, tagged
    [llm] with its usage, when the model extractor returns one, and the
    pattern extractor's record, tagged [regex_fallback] without usage,
    otherwise. The status-500 branch is never taken. *)
Theorem auto_mode_always_answers
    (llm_parse : text -> result (dict * Usage)) (t : text) :
  forallb isspace t = false ->
  exists r,
    parse_receipt t = Ok r /\
    api.parse_receipt llm_parse parse_receipt
      {| api.receipt_text := t; api.parser := api.auto |}
    = api.Respond
        match llm_parse t with
        | Ok (d, u) =>
            {| api.success := true; api.parser_used := "llm";
               api.data := Some d; api.error := None;
               api.usage := Some u |}
        | Raise _ =>
            {| api.success := true; api.parser_used := "regex_fallback";
               api.data := Some (api.as_dict r); api.error := None;
               api.usage := None |}
        end.
Proof.
  intros H. apply not_blank in H.
  destruct (parse_receipt_fields t) as (r & Hr & _).
  exists r. split; [exact Hr|].
  unfold api.parse_receipt. simpl. rewrite H.
  destruct (llm_parse t) as [[d u]|e]; [reflexivity|].
  rewrite Hr. reflexivity.
Qed.

Lemma auto_mode_always_answers_witness :
  exists resp,
    api.parse_receipt (fun _ => Raise (Exn APIError "down")) parse_receipt
      {| api.receipt_text := txt "?"; api.parser := api.auto |}
    = api.Respond resp /\
    api.parser_used resp = "regex_fallback"%string.
Proof.
  destruct (auto_mode_always_answers
              (fun _ => Raise (Exn APIError "down")) (txt "?") eq_refl)
    as (r & _ & H).
  eexists. split; [exact H | reflexivity].
Defined.

(** X17. The explicit modes never fall back. In regex mode the model
    extractor is not consulted and, with the pattern extractor in place,
    every non-blank text is answered with that extractor's record; in llm
    mode the pattern extractor is not consulted, and a failure of the model
    extractor is a status 500 carrying its message. *)
Theorem explicit_modes_do_not_fall_back
    (llm_parse : text -> result (dict * Usage))
    (regex_parse : text -> result Receipt) (t : text) :
  forallb isspace t = false ->
  (exists r,
     parse_receipt t = Ok r /\
     api.parse_receipt llm_parse parse_receipt
       {| api.receipt_text := t; api.parser := api.regex |}
     = api.Respond {| api.success := true; api.parser_used := "regex";
                      api.data := Some (api.as_dict r); api.error := None;
                      api.usage := None |}) /\
  api.parse_receipt llm_parse regex_parse
    {| api.receipt_text := t; api.parser := api.llm |}
  = match llm_parse t with
    | Ok (d, u) =>
        api.Respond {| api.success := true; api.parser_used := "llm";
                       api.data := Some d; api.error := None;
                       api.usage := Some u |}
    | Raise e =>
        api.HTTPException 500
          (String.append "LLM parsing failed: " (exn_msg e))
    end.
Proof.
  intros H. apply not_blank in H. split.
  - destruct (parse_receipt_fields t) as (r & Hr & _).
    exists r. split; [exact Hr|].
    unfold api.parse_receipt. simpl. rewrite H, Hr. reflexivity.
  - unfold api.parse_receipt. simpl. rewrite H.
    destruct (llm_parse t) as [[d u]|e]; reflexivity.
Qed.

Lemma explicit_modes_do_not_fall_back_witness :
  api.parse_receipt (fun _ => Raise (Exn APIError "overloaded"))
    parse_receipt
    {| api.receipt_text := scenario_a; api.parser := api.llm |}
  = api.HTTPException 500 "LLM parsing failed: overloaded".
Proof.
  apply (proj2 (explicit_modes_do_not_fall_back
                  (fun _ => Raise (Exn APIError "overloaded"))
                  parse_receipt scenario_a eq_refl)).
Defined.

Lemma py_len_has_len v :
  if has_len v then exists n, py_len v = Ok n
  else exists e, py_len v = Raise e /\ exn_type e = TypeError.
Proof. destruct v; simpl; eauto. Qed.

Lemma items_len_regex r :
  py_len (get_default "items" (JArr []) (api.as_dict r))
  = Ok (length (items r)).
Proof.
  unfold get_default, api.as_dict. simpl. rewrite length_map. reflexivity.
Qed.

(** X18. [/compare] on a non-blank text, with the pattern extractor in
    place: the pattern entry is always a success. When the model extractor
    fails, the answer holds its error message next to the pattern record
    and no comparison; when it returns a record whose [items] has a length
    (or is missing), the answer holds both records and a comparison; when
    [items] is [null], a number or a boolean, [len] raises [TypeError] and
    the endpoint gives no answer. *)
Theorem compare_with_pattern_extractor
    (llm_parse : text -> result (dict * Usage)) (t : text)
    (p : api.parser_choice) :
  forallb isspace t = false ->
  let request := {| api.receipt_text := t; api.parser := p |} in
  exists r,
    parse_receipt t = Ok r /\
    match llm_parse t with
    | Raise e =>
        api.compare_parsers llm_parse parse_receipt request
        = api.Respond
            {| api.results_llm := api.Failure (exn_msg e);
               api.results_regex := api.Success (api.as_dict r) None;
               api.results_comparison := None |}
    | Ok (d, u) =>
        if has_len (get_default "items" (JArr []) d) then
          exists c,
            api.compare_parsers llm_parse parse_receipt request
            = api.Respond
                {| api.results_llm := api.Success d (Some u);
                   api.results_regex := api.Success (api.as_dict r) None;
                   api.results_comparison := Some c |} /\
            api.items_count_regex c = length (items r)
        else
          exists e,
            api.compare_parsers llm_parse parse_receipt request
            = api.Unhandled e /\
            exn_type e = TypeError
    end.
Proof.
  intros H request. apply not_blank in H.
  destruct (parse_receipt_fields t) as (r & Hr & _).
  exists r. split; [exact Hr|].
  unfold api.compare_parsers. simpl. rewrite H, Hr.
  destruct (llm_parse t) as [[d u]|e]; [|reflexivity].
  unfold api.compare. rewrite items_len_regex.
  pose proof (py_len_has_len (get_default "items" (JArr []) d)) as L.
  destruct (has_len (get_default "items" (JArr []) d)).
  - destruct L as [n ->]. simpl. eexists. split; reflexivity.
  - destruct L as (e & -> & He). simpl. eauto.
Qed.

Lemma compare_with_pattern_extractor_witness :
  exists e,
    api.compare_parsers
      (fun _ => Ok ([("merchant"%string, JStr (txt "ACME"));
                     ("items"%string, JNull)],
                    {| input_tokens := 1; output_tokens := 1;
                       total_tokens := 2 |}))
      parse_receipt
      {| api.receipt_text := scenario_a; api.parser := api.auto |}
    = api.Unhandled e /\
    exn_type e = TypeError.
Proof.
  destruct (compare_with_pattern_extractor
              (fun _ => Ok ([("merchant"%string, JStr (txt "ACME"));
                             ("items"%string, JNull)],
                            {| input_tokens := 1; output_tokens := 1;
                               total_tokens := 2 |}))
              scenario_a api.auto eq_refl)
    as (r & _ & H).
  exact H.
Defined.

Lemma text_eqb_eq a b : text_eqb a b = true <-> a = b.
Proof.
  split; [|intros ->; apply text_eqb_refl].
  revert b. induction a as [|x a IH]; intros [|y b]; simpl;
    try discriminate; [reflexivity|].
  intros H. apply andb_true_iff in H. destruct H as [Hx Ha].
  apply Ascii.eqb_eq in Hx. subst. f_equal. auto.
Qed.

Lemma py_eq_str x s : py_eq x (JStr s) = true <-> x = JStr s.
Proof.
  destruct x; simpl; try (split; [discriminate | congruence]).
  rewrite text_eqb_eq. split; congruence.
Qed.

Lemma py_eq_null x : py_eq x JNull = true <-> x = JNull.
Proof.
  destruct x; simpl; try (split; [discriminate | congruence]).
  split; reflexivity.
Qed.

(** X19. The comparison is Python's [==] on what the two extractors stored.
    [merchant_match] holds only when the model's merchant is the very same
    string as the pattern extractor's, or both are absent; an absent total
    matches only an absent total; a total the pattern extractor found
    matches a finite number of the model, an [int], a [float] or a [bool],
    that is the same number as the float it stored, and [inf] only [inf]:
    never [null], [nan], a string or another number. The pattern side of
    [items_count] is the number of items extracted, and the model side is
    the length of its [items] array, 0 when the key is missing. *)
Theorem comparison_is_exact (d : dict) (r : Receipt) (c : api.Comparison) :
  api.compare d (api.as_dict r) = Ok c ->
  (api.merchant_match c = true <->
   get "merchant" d = api.opt_json JStr (merchant r)) /\
  (total r = None ->
   (api.total_match c = true <-> get "total" d = JNull)) /\
  (forall x, total r = Some x ->
     (api.total_match c = true <->
      match x, get "total" d with
      | Finite q, JNum q' => (q' == q)%Q
      | Finite q, JBool b => (bool_num b == q)%Q
      | Infinity negative, JInf negative' => negative' = negative
      | _, _ => False
      end)) /\
  api.items_count_regex c = length (items r) /\
  (lookup "items" d = None -> api.items_count_llm c = 0) /\
  (forall l, lookup "items" d = Some (JArr l) ->
             api.items_count_llm c = length l).
Proof.
  unfold api.compare. rewrite items_len_regex.
  destruct (py_len (get_default "items" (JArr []) d)) as [n|] eqn:L;
    [|discriminate].
  simpl. intros H. injection H as <-. simpl.
  change (get "merchant" (api.as_dict r))
    with (api.opt_json JStr (merchant r)).
  change (get "total" (api.as_dict r))
    with (api.opt_json api.float_json (total r)).
  split; [|split; [|split; [|split; [|split]]]].
  - destruct (merchant r); simpl; [apply py_eq_str | apply py_eq_null].
  - intros ->. simpl. apply py_eq_null.
  - intros x ->. simpl.
    destruct x as [q|s], (get "total" d) as [|b|q'|b| | | |]; simpl;
      try (split; [discriminate | tauto]).
    + apply Qeq_bool_iff.
    + apply Qeq_bool_iff.
    + destruct b, s; simpl; split; congruence.
  - reflexivity.
  - intros H. unfold get_default in L. rewrite H in L. simpl in L.
    congruence.
  - intros l H. unfold get_default in L. rewrite H in L. simpl in L.
    congruence.
Qed.

Lemma comparison_is_exact_witness :
  api.compare
    [("merchant"%string, JStr (txt "acme office supplies"));
     ("total"%string, api.float_json (binary64 0.1%Q))]
    (api.as_dict
       {| merchant := Some (txt "ACME Office Supplies"); date := None;
          invoice_number := None;
          items := [ {| description := txt "Paper";
                        amount := binary64 45.00%Q |} ];
          subtotal := None; tax := None;
          total := Some (binary64 0.10000000000000001%Q);
          parser_used := "regex" |})
  = Ok {| api.merchant_match := false; api.total_match := true;
          api.items_count_llm := 0; api.items_count_regex := 1 |} /\
  (true = true <->
   (3602879701896397 # 36028797018963968
    == 3602879701896397 # 36028797018963968)%Q).
Proof.
  split; [vm_compute; reflexivity|].
  exact (proj1 (proj2 (proj2
           (comparison_is_exact
              [("merchant"%string, JStr (txt "acme office supplies"));
               ("total"%string, api.float_json (binary64 0.1%Q))]
              {| merchant := Some (txt "ACME Office Supplies");
                 date := None; invoice_number := None;
                 items := [ {| description := txt "Paper";
                               amount := binary64 45.00%Q |} ];
                 subtotal := None; tax := None;
                 total := Some (binary64 0.10000000000000001%Q);
                 parser_used := "regex" |}
              {| api.merchant_match := false; api.total_match := true;
                 api.items_count_llm := 0; api.items_count_regex := 1 |}
              ltac:(vm_compute; reflexivity))))
           (binary64 0.10000000000000001%Q) eq_refl).
Defined.
